(** * The streaming message assembler of the anthropic-sdk Go client

    A shallow embedding of package [streaming] (type [MessageStream] with its
    methods [Next], [Current], [Err], [Message] and [updateMessage]) and of
    the part of package [models] it works on ([Message], [ContentBlock] and
    the six block structs with [ContentBlock.UnmarshalJSON]), followed by the
    properties of the event decoder and of the incremental assembler.

    Conventions of the embedding.
    - A Go [string] and a [[]byte] are both a [string] of Rocq (a sequence of
      bytes); Go's [int] is [Z].
    - A Go struct is a record in a module of the struct's name, so that
      [Delta.Text d] reads like the source's [d.Text]; a field called [Type]
      in Go is [Type_] here. A pointer field that may be [nil] is an [option].
    - The stream and the message it accumulates have one owner, and every
      event is decoded into fresh memory by [Next]: no two content blocks
      ever share a pointer, so the in-place updates of the source are
      functional updates of the block at one index.
    - A slice index out of range is a run-time panic in Go: [Panic]. *)

From stdpp Require Import base option list gmap strings.
From Stdlib Require Import ZArith Ascii Lia.
From Stdlib Require String.

Local Open Scope Z_scope.
Set Warnings "-clear-no-such-hyp".

(** ** Outcomes of a call *)

Inductive outcome (A : Type) : Type :=
| Done (a : A)
| Panic
| OutOfFuel.
Arguments Done {A} a.
Arguments Panic {A}.
Arguments OutOfFuel {A}.

#[global] Instance outcome_ret : MRet outcome := fun A a => Done a.
#[global] Instance outcome_bind : MBind outcome := fun A B f m =>
  match m with
  | Done a => f a
  | Panic => Panic
  | OutOfFuel => OutOfFuel
  end.

(** [l[i]] and [l[i] = a] of Go, with the bounds check of the run time. *)
Definition index_get {A} (l : list A) (i : Z) : outcome A :=
  if decide (0 ≤ i)
  then match l !! Z.to_nat i with Some a => Done a | None => Panic end
  else Panic.

Definition index_set {A} (l : list A) (i : Z) (a : A) : outcome (list A) :=
  if decide (0 ≤ i < Z.of_nat (length l))
  then Done (<[Z.to_nat i := a]> l)
  else Panic.

(** ** Strings and bytes: the library calls of the source *)

(** [strings.HasPrefix], [bytes.HasPrefix]. *)
Definition HasPrefix (s prefix : string) : bool := String.prefix prefix s.

(** [strings.HasSuffix]:
    [len(s) >= len(suffix) && s[len(s)-len(suffix):] == suffix]. *)
Definition HasSuffix (s suffix : string) : bool :=
  (String.length suffix <=? String.length s)%nat &&
  String.eqb
    (String.substring (String.length s - String.length suffix)
       (String.length suffix) s)
    suffix.

(** [s[n:]]. *)
Fixpoint drop_bytes (n : nat) (s : string) : string :=
  match n, s with
  | O, _ => s
  | S _, EmptyString => EmptyString
  | S n', String _ s' => drop_bytes n' s'
  end.

Fixpoint rev_bytes (acc s : string) : string :=
  match s with
  | EmptyString => acc
  | String c s' => rev_bytes (String c acc) s'
  end.

(** The white space of [unicode.IsSpace], as the UTF-8 byte sequences that
    encode it: tab, line feed, vertical tab, form feed, carriage return,
    space, U+0085, U+00A0, U+1680, U+2000 to U+200A, U+2028, U+2029, U+202F,
    U+205F and U+3000. *)
Definition bytes_of (l : list nat) : string :=
  fold_right (fun n s => String (ascii_of_nat n) s) EmptyString l.

Definition unicode_spaces : list string :=
  map bytes_of
    [ [9%nat]; [10%nat]; [11%nat]; [12%nat]; [13%nat]; [32%nat];
      [194; 133]%nat; [194; 160]%nat; [225; 154; 128]%nat;
      [226; 128; 128]%nat; [226; 128; 129]%nat; [226; 128; 130]%nat;
      [226; 128; 131]%nat; [226; 128; 132]%nat; [226; 128; 133]%nat;
      [226; 128; 134]%nat; [226; 128; 135]%nat; [226; 128; 136]%nat;
      [226; 128; 137]%nat; [226; 128; 138]%nat; [226; 128; 168]%nat;
      [226; 128; 169]%nat; [226; 128; 175]%nat; [226; 129; 159]%nat;
      [227; 128; 128]%nat ].

(** The number of bytes of the white-space rune [s] starts with, or [0]. *)
Definition leading_space (spaces : list string) (s : string) : nat :=
  match List.find (fun sp => String.prefix sp s) spaces with
  | Some sp => String.length sp
  | None => O
  end.

Fixpoint trim_left (spaces : list string) (fuel : nat) (s : string) : string :=
  match fuel with
  | O => s
  | S fuel' =>
      match leading_space spaces s with
      | O => s
      | n => trim_left spaces fuel' (drop_bytes n s)
      end
  end.

(** [bytes.TrimSpace]: the white-space runes at both ends are cut off. The
    right end is trimmed on the reversed bytes, against the reversed
    encodings. *)
Definition TrimSpace (s : string) : string :=
  let l := trim_left unicode_spaces (String.length s) s in
  let r := rev_bytes EmptyString l in
  rev_bytes EmptyString
    (trim_left (map (rev_bytes EmptyString) unicode_spaces) (String.length r) r).

(** ** Data model: package [models] *)

(** A decoded JSON value: what [encoding/json] stores in an [interface{}].
    [JNull] is the [nil] interface, [JObject] a [map[string]interface{}] given
    by its members (for a repeated key the member decoded last is kept),
    [JArray] a [[]interface{}]. A number keeps its literal: its conversion to
    [float64] is outside this development. *)
#[warnings="-register-all"]
Inductive json : Type :=
| JNull
| JBool (b : bool)
| JNumber (literal : string)
| JString (s : string)
| JArray (elements : list json)
| JObject (members : list (string * json)).

Definition TextContentType : string := "text".
Definition ImageContentType : string := "image".
Definition ToolUseContentType : string := "tool_use".
Definition ToolResultContentType : string := "tool_result".
Definition ThinkingContentType : string := "thinking".
Definition RedactedThinkingContentType : string := "redacted_thinking".

Definition UserRole : string := "user".
Definition AssistantRole : string := "assistant".

Definition EndTurn : string := "end_turn".
Definition MaxTokens : string := "max_tokens".
Definition StopSequence : string := "stop_sequence".
Definition ToolUse : string := "tool_use".

Module ImageSource.
Record t := mk { Type_ : string; MediaType : string; Data : string; URL : string }.
Definition zero : t := mk "" "" "" "".
End ImageSource.

Module TextBlock.
Record t := mk { Type_ : string; Text : string }.
Definition zero : t := mk "" "".
End TextBlock.

Module ImageBlock.
Record t := mk { Type_ : string; Source : ImageSource.t }.
Definition zero : t := mk "" ImageSource.zero.
End ImageBlock.

Module ToolUseBlock.
Record t := mk { Type_ : string; ID : string; Name : string; Input : json }.
Definition zero : t := mk "" "" "" JNull.
End ToolUseBlock.

Module ToolResultBlock.
Record t := mk { Type_ : string; ToolUseID : string; Content : string; IsError : bool }.
Definition zero : t := mk "" "" "" false.
End ToolResultBlock.

Module ThinkingBlock.
Record t := mk { Type_ : string; Thinking : string; Signature : string }.
Definition zero : t := mk "" "" "".
End ThinkingBlock.

Module RedactedThinkingBlock.
Record t := mk { Type_ : string; Data : string }.
Definition zero : t := mk "" "".
End RedactedThinkingBlock.

Module ContentBlock.
Record t := mk {
  TextContent : option TextBlock.t;
  ImageContent : option ImageBlock.t;
  ToolUseContent : option ToolUseBlock.t;
  ToolResultContent : option ToolResultBlock.t;
  ThinkingContent : option ThinkingBlock.t;
  RedactedThinkingContent : option RedactedThinkingBlock.t }.
(** [models.ContentBlock{}]: the placeholder, no variant populated. *)
Definition zero : t := mk None None None None None None.
End ContentBlock.

Module Usage.
Record t := mk { InputTokens : Z; OutputTokens : Z }.
Definition zero : t := mk 0 0.
End Usage.

Module Message.
Record t := mk {
  ID : string;
  Role : string;
  Content : list ContentBlock.t;
  Model : string;
  StopReason : string;
  StopSequence : string;
  Usage : Usage.t }.
(** [models.Message{}]. A [nil] slice and an empty one are both [[]]: the
    source only takes [len] of the content, appends to it and indexes it. *)
Definition zero : t := mk "" "" [] "" "" "" Usage.zero.
End Message.

(** ** Data model: package [streaming] *)

Definition MessageStartEvent : string := "message_start".
Definition ContentBlockStartEvent : string := "content_block_start".
Definition ContentBlockDeltaEvent : string := "content_block_delta".
Definition ContentBlockStopEvent : string := "content_block_stop".
Definition MessageDeltaEvent : string := "message_delta".
Definition MessageStopEvent : string := "message_stop".

Module Delta.
Record t := mk {
  Type_ : string;
  Text : string;
  PartialJSON : string;
  Thinking : string;
  Signature : string }.
Definition zero : t := mk "" "" "" "" "".
End Delta.

Module Event.
Record t := mk {
  Type_ : string;
  Message : option Message.t;
  StopReason : option string;
  Index : option Z;
  ContentBlock : option ContentBlock.t;
  Delta : option Delta.t;
  Usage : option Usage.t }.
Definition zero : t := mk "" None None None None None None.
End Event.

(** The input behind the [bufio.Reader]: the bytes not yet read, and the
    error the underlying [io.Reader] returns once they are used up, [io.EOF]
    or another one. *)
Inductive io_error : Type :=
| EOF
| ReadFailure (cause : string).

Module Reader.
Record t := mk { pending : string; final : io_error }.
End Reader.

(** The errors [Next] records in [s.err]: [fmt.Errorf] of
    [error reading stream: %w] around the reader's error (a transport error)
    and of [error parsing event: %w] around the decoder's (a decode error). *)
Inductive stream_error : Type :=
| ErrorReadingStream (cause : string)
| ErrorParsingEvent.

Module MessageStream.
Record t := mk {
  reader : Reader.t;
  currentEvent : option Event.t;
  err : option stream_error;
  message : Message.t;
  jsonBuffers : gmap Z string }.
End MessageStream.

(** [NewMessageStream(reader)]. *)
Definition NewMessageStream (reader : Reader.t) : MessageStream.t :=
  MessageStream.mk reader None None Message.zero ∅.

(** ** The JSON decoder the stream calls

    [encoding/json] is not part of the repository. The stream is embedded
    over any decoder with the two entry points the source uses;
    [encoding_json] further down is the instance that follows Go's package. *)
Class Unmarshal := {
  (** [var event Event; err := json.Unmarshal(data, &event)]: the decoded
      event, or [None] when [err != nil]. *)
  json_Unmarshal_Event : string → option Event.t;
  (** [var inputObj map[string]interface{}; err := json.Unmarshal(data, &inputObj)]. *)
  json_Unmarshal_map : string → option json }.

(** ** Field updates (Go assigns to one field of a struct in place) *)

Definition set_Text (tb : TextBlock.t) (v : string) : TextBlock.t :=
  TextBlock.mk (TextBlock.Type_ tb) v.

Definition set_Input (tu : ToolUseBlock.t) (v : json) : ToolUseBlock.t :=
  ToolUseBlock.mk (ToolUseBlock.Type_ tu) (ToolUseBlock.ID tu) (ToolUseBlock.Name tu) v.

Definition set_Thinking (th : ThinkingBlock.t) (v : string) : ThinkingBlock.t :=
  ThinkingBlock.mk (ThinkingBlock.Type_ th) v (ThinkingBlock.Signature th).

Definition set_Signature (th : ThinkingBlock.t) (v : string) : ThinkingBlock.t :=
  ThinkingBlock.mk (ThinkingBlock.Type_ th) (ThinkingBlock.Thinking th) v.

Definition set_TextContent (b : ContentBlock.t) (v : option TextBlock.t) : ContentBlock.t :=
  ContentBlock.mk v (ContentBlock.ImageContent b) (ContentBlock.ToolUseContent b)
    (ContentBlock.ToolResultContent b) (ContentBlock.ThinkingContent b)
    (ContentBlock.RedactedThinkingContent b).

Definition set_ImageContent (b : ContentBlock.t) (v : option ImageBlock.t) : ContentBlock.t :=
  ContentBlock.mk (ContentBlock.TextContent b) v (ContentBlock.ToolUseContent b)
    (ContentBlock.ToolResultContent b) (ContentBlock.ThinkingContent b)
    (ContentBlock.RedactedThinkingContent b).

Definition set_ToolUseContent (b : ContentBlock.t) (v : option ToolUseBlock.t) : ContentBlock.t :=
  ContentBlock.mk (ContentBlock.TextContent b) (ContentBlock.ImageContent b) v
    (ContentBlock.ToolResultContent b) (ContentBlock.ThinkingContent b)
    (ContentBlock.RedactedThinkingContent b).

Definition set_ToolResultContent (b : ContentBlock.t) (v : option ToolResultBlock.t) : ContentBlock.t :=
  ContentBlock.mk (ContentBlock.TextContent b) (ContentBlock.ImageContent b)
    (ContentBlock.ToolUseContent b) v (ContentBlock.ThinkingContent b)
    (ContentBlock.RedactedThinkingContent b).

Definition set_ThinkingContent (b : ContentBlock.t) (v : option ThinkingBlock.t) : ContentBlock.t :=
  ContentBlock.mk (ContentBlock.TextContent b) (ContentBlock.ImageContent b)
    (ContentBlock.ToolUseContent b) (ContentBlock.ToolResultContent b) v
    (ContentBlock.RedactedThinkingContent b).

Definition set_RedactedThinkingContent (b : ContentBlock.t)
    (v : option RedactedThinkingBlock.t) : ContentBlock.t :=
  ContentBlock.mk (ContentBlock.TextContent b) (ContentBlock.ImageContent b)
    (ContentBlock.ToolUseContent b) (ContentBlock.ToolResultContent b)
    (ContentBlock.ThinkingContent b) v.

Definition set_ID (m : Message.t) (v : string) : Message.t :=
  Message.mk v (Message.Role m) (Message.Content m) (Message.Model m)
    (Message.StopReason m) (Message.StopSequence m) (Message.Usage m).

Definition set_Role (m : Message.t) (v : string) : Message.t :=
  Message.mk (Message.ID m) v (Message.Content m) (Message.Model m)
    (Message.StopReason m) (Message.StopSequence m) (Message.Usage m).

Definition set_Content (m : Message.t) (v : list ContentBlock.t) : Message.t :=
  Message.mk (Message.ID m) (Message.Role m) v (Message.Model m)
    (Message.StopReason m) (Message.StopSequence m) (Message.Usage m).

Definition set_Model (m : Message.t) (v : string) : Message.t :=
  Message.mk (Message.ID m) (Message.Role m) (Message.Content m) v
    (Message.StopReason m) (Message.StopSequence m) (Message.Usage m).

Definition set_StopReason (m : Message.t) (v : string) : Message.t :=
  Message.mk (Message.ID m) (Message.Role m) (Message.Content m) (Message.Model m)
    v (Message.StopSequence m) (Message.Usage m).

Definition set_StopSequence (m : Message.t) (v : string) : Message.t :=
  Message.mk (Message.ID m) (Message.Role m) (Message.Content m) (Message.Model m)
    (Message.StopReason m) v (Message.Usage m).

Definition set_Usage (m : Message.t) (v : Usage.t) : Message.t :=
  Message.mk (Message.ID m) (Message.Role m) (Message.Content m) (Message.Model m)
    (Message.StopReason m) (Message.StopSequence m) v.

Definition set_reader (s : MessageStream.t) (v : Reader.t) : MessageStream.t :=
  MessageStream.mk v (MessageStream.currentEvent s) (MessageStream.err s)
    (MessageStream.message s) (MessageStream.jsonBuffers s).

Definition set_currentEvent (s : MessageStream.t) (v : option Event.t) : MessageStream.t :=
  MessageStream.mk (MessageStream.reader s) v (MessageStream.err s)
    (MessageStream.message s) (MessageStream.jsonBuffers s).

Definition set_err (s : MessageStream.t) (v : option stream_error) : MessageStream.t :=
  MessageStream.mk (MessageStream.reader s) (MessageStream.currentEvent s) v
    (MessageStream.message s) (MessageStream.jsonBuffers s).

Definition set_message (s : MessageStream.t) (v : Message.t) : MessageStream.t :=
  MessageStream.mk (MessageStream.reader s) (MessageStream.currentEvent s)
    (MessageStream.err s) v (MessageStream.jsonBuffers s).

Definition set_jsonBuffers (s : MessageStream.t) (v : gmap Z string) : MessageStream.t :=
  MessageStream.mk (MessageStream.reader s) (MessageStream.currentEvent s)
    (MessageStream.err s) (MessageStream.message s) v.

(** [s.message.Content = v]. *)
Definition set_message_Content (s : MessageStream.t) (v : list ContentBlock.t)
    : MessageStream.t :=
  set_message s (set_Content (MessageStream.message s) v).

(** [s.jsonBuffers[idx]]: a key that is absent reads as the empty string. *)
Definition buffer (s : MessageStream.t) (idx : Z) : string :=
  default "" (MessageStream.jsonBuffers s !! idx).

(** ** The incremental message assembler *)

(** The loop of [ContentBlockStartEvent]:
    [for len(s.message.Content) <= idx { append(..., models.ContentBlock{}) }].
    It runs at most [idx + 1] times, which is the fuel [updateMessage] gives. *)
Fixpoint grow (fuel : nat) (content : list ContentBlock.t) (idx : Z)
    : list ContentBlock.t :=
  match fuel with
  | O => content
  | S fuel' =>
      if decide (Z.of_nat (length content) ≤ idx)
      then grow fuel' (content ++ [ContentBlock.zero]) idx
      else content
  end.

Section Stream.
Context `{Unmarshal}.

(** The parse attempt shared by the delta and the stop case: when [jsonStr]
    starts with an opening and ends with a closing brace and decodes, the
    tool-use block [tu] of block [b] at [idx] takes the decoded object as its
    input; otherwise nothing changes. *)
Definition parse_input (s : MessageStream.t) (idx : Z) (b : ContentBlock.t)
    (tu : ToolUseBlock.t) (jsonStr : string) : outcome MessageStream.t :=
  if HasPrefix jsonStr "{" && HasSuffix jsonStr "}" then
    match json_Unmarshal_map jsonStr with
    | Some inputObj =>
        content ← index_set (Message.Content (MessageStream.message s)) idx
                    (set_ToolUseContent b (Some (set_Input tu inputObj)));
        Done (set_message_Content s content)
    | None => Done s
    end
  else Done s.

Definition updateMessage (s : MessageStream.t) (event : Event.t)
    : outcome MessageStream.t :=
  let content := Message.Content (MessageStream.message s) in
  if decide (Event.Type_ event = MessageStartEvent) then
    match Event.Message event with
    | Some m =>
        Done (set_message s
                (set_Model
                   (set_Role (set_ID (MessageStream.message s) (Message.ID m))
                      (Message.Role m))
                   (Message.Model m)))
    | None => Done s
    end
  else if decide (Event.Type_ event = ContentBlockStartEvent) then
    match Event.ContentBlock event, Event.Index event with
    | Some cb, Some idx =>
        let content := grow (Z.to_nat (idx + 1)) content idx in
        content ← index_set content idx cb;
        let s := set_message_Content s content in
        match ContentBlock.ToolUseContent cb with
        | Some _ => Done (set_jsonBuffers s (<[idx := ""]> (MessageStream.jsonBuffers s)))
        | None => Done s
        end
    | _, _ => Done s
    end
  else if decide (Event.Type_ event = ContentBlockDeltaEvent) then
    match Event.Delta event, Event.Index event with
    | Some delta, Some idx =>
        if decide (idx < Z.of_nat (length content)) then
          if decide (Delta.Type_ delta = "text_delta") then
            b ← index_get content idx;
            match ContentBlock.TextContent b with
            | Some tb =>
                content ← index_set content idx
                  (set_TextContent b
                     (Some (set_Text tb (TextBlock.Text tb +:+ Delta.Text delta))));
                Done (set_message_Content s content)
            | None => Done s
            end
          else if decide (Delta.Type_ delta = "input_json_delta") then
            b ← index_get content idx;
            match ContentBlock.ToolUseContent b with
            | Some tu =>
                let s := set_jsonBuffers s
                           (<[idx := buffer s idx +:+ Delta.PartialJSON delta]>
                              (MessageStream.jsonBuffers s)) in
                let jsonStr := buffer s idx in
                parse_input s idx b tu jsonStr
            | None => Done s
            end
          else if decide (Delta.Type_ delta = "thinking_delta") then
            b ← index_get content idx;
            match ContentBlock.ThinkingContent b with
            | Some th =>
                content ← index_set content idx
                  (set_ThinkingContent b
                     (Some (set_Thinking th
                              (ThinkingBlock.Thinking th +:+ Delta.Thinking delta))));
                Done (set_message_Content s content)
            | None => Done s
            end
          else if decide (Delta.Type_ delta = "signature_delta") then
            b ← index_get content idx;
            match ContentBlock.ThinkingContent b with
            | Some th =>
                content ← index_set content idx
                  (set_ThinkingContent b
                     (Some (set_Signature th (Delta.Signature delta))));
                Done (set_message_Content s content)
            | None => Done s
            end
          else Done s
        else Done s
    | _, _ => Done s
    end
  else if decide (Event.Type_ event = ContentBlockStopEvent) then
    match Event.Index event with
    | Some idx =>
        if decide (idx < Z.of_nat (length content)) then
          b ← index_get content idx;
          match ContentBlock.ToolUseContent b with
          | Some tu => parse_input s idx b tu (buffer s idx)
          | None => Done s
          end
        else Done s
    | None => Done s
    end
  else if decide (Event.Type_ event = MessageStopEvent) then
    let s := match Event.StopReason event with
             | Some r => set_message s (set_StopReason (MessageStream.message s) r)
             | None => s
             end in
    match Event.Usage event with
    | Some u => Done (set_message s (set_Usage (MessageStream.message s) u))
    | None => Done s
    end
  else Done s.

(** The events of a list folded into the stream state, in order. *)
Fixpoint updateMessages (s : MessageStream.t) (events : list Event.t)
    : outcome MessageStream.t :=
  match events with
  | [] => Done s
  | event :: events' => s' ← updateMessage s event; updateMessages s' events'
  end.

(** ** The event decoder *)

(** The bytes up to and including the first [delim], and the rest. *)
Fixpoint cut_at (delim : ascii) (s : string) : option (string * string) :=
  match s with
  | EmptyString => None
  | String c s' =>
      if Ascii.eqb c delim then Some (String c EmptyString, s')
      else match cut_at delim s' with
           | Some (line, rest) => Some (String c line, rest)
           | None => None
           end
  end.

(** [reader.ReadBytes(delim)]: the bytes up to and including the delimiter;
    when the input ends before one is found, the bytes read so far together
    with the error. *)
Definition ReadBytes (r : Reader.t) (delim : ascii)
    : string * option io_error * Reader.t :=
  match cut_at delim (Reader.pending r) with
  | Some (line, rest) => (line, None, Reader.mk rest (Reader.final r))
  | None => (Reader.pending r, Some (Reader.final r), Reader.mk "" (Reader.final r))
  end.

(** [Next]. The method calls itself after a line it skips; each call reads
    at least one byte, so that [Next] gives [Next_loop] one more unit of fuel
    than there are bytes to read. *)
Fixpoint Next_loop (fuel : nat) (s : MessageStream.t)
    : outcome (bool * MessageStream.t) :=
  match fuel with
  | O => OutOfFuel
  | S fuel' =>
      match MessageStream.err s with
      | Some _ => Done (false, s)
      | None =>
          let '(line, err, r) := ReadBytes (MessageStream.reader s) "010"%char in
          let s := set_reader s r in
          match err with
          | Some EOF => Done (false, s)
          | Some (ReadFailure cause) =>
              Done (false, set_err s (Some (ErrorReadingStream cause)))
          | None =>
              let line := TrimSpace line in
              if decide (String.length line = 0%nat) then Next_loop fuel' s
              else
                let prefix := "data: " in
                if negb (HasPrefix line prefix) then Next_loop fuel' s
                else
                  let data := drop_bytes (String.length prefix) line in
                  match json_Unmarshal_Event data with
                  | None => Done (false, set_err s (Some ErrorParsingEvent))
                  | Some event =>
                      s ← updateMessage (set_currentEvent s (Some event)) event;
                      Done (true, s)
                  end
          end
      end
  end.

Definition Next (s : MessageStream.t) : outcome (bool * MessageStream.t) :=
  Next_loop (S (String.length (Reader.pending (MessageStream.reader s)))) s.

(** The outcome of the call of [Next] that comes after [n] earlier ones. *)
Fixpoint Next_times (n : nat) (s : MessageStream.t)
    : outcome (bool * MessageStream.t) :=
  match n with
  | O => Next s
  | S n' => r ← Next s; Next_times n' r.2
  end.

(** [Current], [Err] and [Message]. *)
Definition Current (s : MessageStream.t) : option Event.t := MessageStream.currentEvent s.
Definition Err (s : MessageStream.t) : option stream_error := MessageStream.err s.
Definition Message (s : MessageStream.t) : Message.t := MessageStream.message s.

(** [for stream.Next() { }]: the stream advanced until [Next] returns
    [false], with the number of events delivered. Every call that returns
    [true] has read a line, so the bytes to read bound the calls. *)
Fixpoint drain_loop (fuel : nat) (s : MessageStream.t) (delivered : nat)
    : outcome (nat * MessageStream.t) :=
  match fuel with
  | O => OutOfFuel
  | S fuel' =>
      r ← Next s;
      match r with
      | (true, s') => drain_loop fuel' s' (S delivered)
      | (false, s') => Done (delivered, s')
      end
  end.

Definition drain (s : MessageStream.t) : outcome (nat * MessageStream.t) :=
  drain_loop (S (String.length (Reader.pending (MessageStream.reader s)))) s O.

End Stream.

(** ** Go's [encoding/json], as far as the stream uses it

    The text is scanned by the grammar of Go's scanner, and the value is then
    stored into the target the way [Unmarshal] does it: object keys matched
    to struct fields by name, ignoring case; unknown keys skipped; [null]
    leaving a field as it is, and setting a pointer to [nil]; a value of the
    wrong kind an error; a repeated key decoded again into the same field.
    Only whether [Unmarshal] returns an error is of interest to the stream
    (it drops the event then), so the first error ends the decoding here.
    [int] is taken to be 64 bits wide. *)
Module Json.

Definition byte (c : ascii) : N := N_of_ascii c.
Definition of_byte (n : N) : ascii := ascii_of_N n.
Definition between (lo hi : N) (c : ascii) : bool :=
  ((lo <=? byte c) && (byte c <=? hi))%N.

(** *** UTF-8 *)

Definition continuation (c : ascii) : bool := between 128 191 c.

(** The length of the well-formed UTF-8 encoding [s] starts with
    ([utf8.DecodeRune]), or [0] when there is none. *)
Definition rune_len (s : string) : nat :=
  match s with
  | EmptyString => 0%nat
  | String c0 s1 =>
      if (byte c0 <? 128)%N then 1%nat
      else match s1 with
      | EmptyString => 0%nat
      | String c1 s2 =>
          if between 194 223 c0 then (if continuation c1 then 2%nat else 0%nat)
          else match s2 with
          | EmptyString => 0%nat
          | String c2 s3 =>
              let three (lo hi : N) :=
                if between lo hi c1 && continuation c2 then 3%nat else 0%nat in
              if (byte c0 =? 224)%N then three 160%N 191%N
              else if between 225 236 c0 then three 128%N 191%N
              else if (byte c0 =? 237)%N then three 128%N 159%N
              else if between 238 239 c0 then three 128%N 191%N
              else match s3 with
              | EmptyString => 0%nat
              | String c3 _ =>
                  let four (lo hi : N) :=
                    if between lo hi c1 && continuation c2 && continuation c3
                    then 4%nat else 0%nat in
                  if (byte c0 =? 240)%N then four 144%N 191%N
                  else if between 241 243 c0 then four 128%N 191%N
                  else if (byte c0 =? 244)%N then four 128%N 143%N
                  else 0%nat
              end
          end
      end
  end.

(** [utf8.AppendRune] for a code point that is no surrogate, in front of [k]. *)
Definition encode_rune (cp : N) (k : string) : string :=
  let cont (n : N) := of_byte (128 + N.land n 63) in
  if (cp <? 128)%N then String (of_byte cp) k
  else if (cp <? 2048)%N then
    String (of_byte (192 + N.shiftr cp 6)) (String (cont cp) k)
  else if (cp <? 65536)%N then
    String (of_byte (224 + N.shiftr cp 12))
      (String (cont (N.shiftr cp 6)) (String (cont cp) k))
  else
    String (of_byte (240 + N.shiftr cp 18))
      (String (cont (N.shiftr cp 12))
         (String (cont (N.shiftr cp 6)) (String (cont cp) k))).

Definition replacement_char : N := 65533.

(** *** The scanner *)

Definition is_space (c : ascii) : bool :=
  Ascii.eqb c " " || Ascii.eqb c "009" || Ascii.eqb c "013" || Ascii.eqb c "010".

Fixpoint skip_space (s : string) : string :=
  match s with
  | String c s' => if is_space c then skip_space s' else s
  | EmptyString => s
  end.

Definition is_digit (c : ascii) : bool := between 48 57 c.

Fixpoint digits (s : string) : string * string :=
  match s with
  | String c s' =>
      if is_digit c then let '(d, r) := digits s' in (String c d, r)
      else (EmptyString, s)
  | EmptyString => (EmptyString, s)
  end.

Definition hex_digit (c : ascii) : option N :=
  if is_digit c then Some (byte c - 48)%N
  else if between 97 102 c then Some (byte c - 87)%N
  else if between 65 70 c then Some (byte c - 55)%N
  else None.

(** The four hexadecimal digits after a backslash and the letter u. *)
Definition hex4 (s : string) : option (N * string) :=
  match s with
  | String a (String b (String c (String d r))) =>
      match hex_digit a, hex_digit b, hex_digit c, hex_digit d with
      | Some a, Some b, Some c, Some d => Some (((a * 16 + b) * 16 + c) * 16 + d, r)%N
      | _, _, _, _ => None
      end
  | _ => None
  end.

(** A number literal at the start of [s]: an optional minus sign, then a
    zero or digits that do not start with one, an optional fraction, an
    optional exponent. *)
Definition scan_number (s : string) : option (string * string) :=
  let '(sign, s) :=
    match s with
    | String c r => if Ascii.eqb c "-" then ("-", r) else ("", s)
    | EmptyString => ("", s)
    end in
  match s with
  | String c r =>
      if negb (is_digit c) then None else
      let '(int, s) := if Ascii.eqb c "0" then ("0", r) else digits s in
      let frac :=
        match s with
        | String c r =>
            if Ascii.eqb c "." then
              match digits r with
              | (EmptyString, _) => None
              | (d, r') => Some ("." +:+ d, r')
              end
            else Some ("", s)
        | EmptyString => Some ("", s)
        end in
      match frac with
      | None => None
      | Some (frac, s) =>
          let exp :=
            match s with
            | String c r =>
                if Ascii.eqb c "e" || Ascii.eqb c "E" then
                  let '(esign, r) :=
                    match r with
                    | String c' r' =>
                        if Ascii.eqb c' "+" || Ascii.eqb c' "-"
                        then (String c' "", r') else ("", r)
                    | EmptyString => ("", r)
                    end in
                  match digits r with
                  | (EmptyString, _) => None
                  | (d, r') => Some (String c esign +:+ d, r')
                  end
                else Some ("", s)
            | EmptyString => Some ("", s)
            end in
          match exp with
          | None => None
          | Some (exp, s) => Some (sign +:+ int +:+ frac +:+ exp, s)
          end
      end
  | EmptyString => None
  end.

(** A string literal after its opening quote, unquoted: the escapes are
    replaced, a pair of surrogate escapes becomes one code point, a lone
    surrogate and a byte that is not well-formed UTF-8 become U+FFFD. A
    control character ends the scan with an error. *)
Fixpoint scan_string (fuel : nat) (s : string) : option (string * string) :=
  match fuel with
  | O => None
  | S fuel' =>
      let continue (out : string → string) (r : string) :=
        match scan_string fuel' r with
        | Some (str, rest) => Some (out str, rest)
        | None => None
        end in
      match s with
      | EmptyString => None
      | String c r =>
          if Ascii.eqb c "034" then Some ("", r)
          else if (byte c <? 32)%N then None
          else if Ascii.eqb c "\" then
            match r with
            | EmptyString => None
            | String e r =>
                if Ascii.eqb e "034" || Ascii.eqb e "\" || Ascii.eqb e "/"
                then continue (String e) r
                else if Ascii.eqb e "b" then continue (String "008") r
                else if Ascii.eqb e "f" then continue (String "012") r
                else if Ascii.eqb e "n" then continue (String "010") r
                else if Ascii.eqb e "r" then continue (String "013") r
                else if Ascii.eqb e "t" then continue (String "009") r
                else if Ascii.eqb e "u" then
                  match hex4 r with
                  | None => None
                  | Some (rr, r) =>
                      if ((55296 <=? rr) && (rr <? 57344))%N then
                        let low :=
                          match r with
                          | String b (String u r') =>
                              if Ascii.eqb b "\" && Ascii.eqb u "u" then hex4 r' else None
                          | _ => None
                          end in
                        match low with
                        | Some (rr1, r') =>
                            if ((rr <? 56320) && (56320 <=? rr1) && (rr1 <? 57344))%N
                            then continue
                                   (encode_rune
                                      ((rr - 55296) * 1024 + (rr1 - 56320) + 65536)%N) r'
                            else continue (encode_rune replacement_char) r
                        | None => continue (encode_rune replacement_char) r
                        end
                      else continue (encode_rune rr) r
                  end
                else None
            end
          else if (byte c <? 128)%N then continue (String c) r
          else
            match rune_len s with
            | O => continue (encode_rune replacement_char) r
            | n => continue (String.append (String.substring 0 n s)) (drop_bytes n s)
            end
      end
  end.

Definition maxNestingDepth : N := 10000.

(** A value at the start of [s], after white space. Opening an object or an
    array beyond [maxNestingDepth] open ones is an error. *)
Fixpoint scan_value (fuel : nat) (depth : N) (s : string) : option (json * string) :=
  match fuel with
  | O => None
  | S fuel' =>
      match skip_space s with
      | EmptyString => None
      | String c r as s =>
          if Ascii.eqb c "{" then
            if (maxNestingDepth <=? depth)%N then None else
            match skip_space r with
            | String c' r' as k =>
                if Ascii.eqb c' "}" then Some (JObject [], r')
                else match scan_members fuel' (depth + 1)%N k with
                     | Some (ms, rest) => Some (JObject ms, rest)
                     | None => None
                     end
            | EmptyString => None
            end
          else if Ascii.eqb c "[" then
            if (maxNestingDepth <=? depth)%N then None else
            match skip_space r with
            | String c' r' as k =>
                if Ascii.eqb c' "]" then Some (JArray [], r')
                else match scan_elements fuel' (depth + 1)%N k with
                     | Some (es, rest) => Some (JArray es, rest)
                     | None => None
                     end
            | EmptyString => None
            end
          else if Ascii.eqb c "034" then
            match scan_string (String.length r) r with
            | Some (str, rest) => Some (JString str, rest)
            | None => None
            end
          else if Ascii.eqb c "-" || is_digit c then
            match scan_number s with
            | Some (lit, rest) => Some (JNumber lit, rest)
            | None => None
            end
          else if String.prefix "true" s then Some (JBool true, drop_bytes 4 s)
          else if String.prefix "false" s then Some (JBool false, drop_bytes 5 s)
          else if String.prefix "null" s then Some (JNull, drop_bytes 4 s)
          else None
      end
  end
with scan_elements (fuel : nat) (depth : N) (s : string)
    : option (list json * string) :=
  match fuel with
  | O => None
  | S fuel' =>
      match scan_value fuel' depth s with
      | None => None
      | Some (v, r) =>
          match skip_space r with
          | String c r' =>
              if Ascii.eqb c "," then
                match scan_elements fuel' depth r' with
                | Some (vs, rest) => Some (v :: vs, rest)
                | None => None
                end
              else if Ascii.eqb c "]" then Some ([v], r')
              else None
          | EmptyString => None
          end
      end
  end
with scan_members (fuel : nat) (depth : N) (s : string)
    : option (list (string * json) * string) :=
  match fuel with
  | O => None
  | S fuel' =>
      match skip_space s with
      | String q r =>
          if negb (Ascii.eqb q "034") then None else
          match scan_string (String.length r) r with
          | None => None
          | Some (key, r) =>
              match skip_space r with
              | String c r =>
                  if negb (Ascii.eqb c ":") then None else
                  match scan_value fuel' depth r with
                  | None => None
                  | Some (v, r) =>
                      match skip_space r with
                      | String c r' =>
                          if Ascii.eqb c "," then
                            match scan_members fuel' depth r' with
                            | Some (ms, rest) => Some ((key, v) :: ms, rest)
                            | None => None
                            end
                          else if Ascii.eqb c "}" then Some ([(key, v)], r')
                          else None
                      | EmptyString => None
                      end
                  end
              | EmptyString => None
              end
          end
      | EmptyString => None
      end
  end.

(** The whole text as one value, white space allowed around it. A call of
    the scanner is made after at least one byte was read, but for the first
    element of an array: twice the length of the text is enough fuel. *)
Definition parse (s : string) : option json :=
  match scan_value (2 * String.length s + 2) 0 s with
  | Some (v, rest) =>
      match skip_space rest with
      | EmptyString => Some v
      | String _ _ => None
      end
  | None => None
  end.

(** *** Storing a value into its target *)

(** A field name with case folded the way [encoding/json] compares keys:
    ASCII letters in upper case, and the two letters outside ASCII that fold
    to an ASCII one, U+017F to S and U+212A to K. *)
Fixpoint fold_name (s : string) : string :=
  match s with
  | EmptyString => EmptyString
  | String a r =>
      if between 97 122 a then String (of_byte (byte a - 32)) (fold_name r)
      else
        match r with
        | String b r2 =>
            if ((byte a =? 197) && (byte b =? 191))%N then String "S" (fold_name r2)
            else
              match r2 with
              | String c r3 =>
                  if ((byte a =? 226) && (byte b =? 132) && (byte c =? 170))%N
                  then String "K" (fold_name r3)
                  else String a (fold_name r)
              | EmptyString => String a (fold_name r)
              end
        | EmptyString => String a (fold_name r)
        end
  end.

Fixpoint decimal (acc : Z) (s : string) : Z :=
  match s with
  | String c r => decimal (acc * 10 + Z.of_N (byte c - 48)) r
  | EmptyString => acc
  end.

(** The parts of a number literal: sign, the digits before and after the
    point, and the exponent. *)
Definition number_parts (lit : string) : bool * string * string * Z :=
  let '(neg, s) :=
    match lit with
    | String c r => if Ascii.eqb c "-" then (true, r) else (false, lit)
    | EmptyString => (false, lit)
    end in
  let '(int, s) := digits s in
  let '(frac, s) :=
    match s with
    | String c r => if Ascii.eqb c "." then digits r else (EmptyString, s)
    | EmptyString => (EmptyString, s)
    end in
  let exp :=
    match s with
    | String _ (String c r) =>
        if Ascii.eqb c "-" then - decimal 0 r
        else if Ascii.eqb c "+" then decimal 0 r
        else decimal 0 (String c r)
    | _ => 0
    end in
  (neg, int, frac, exp).

(** [strconv.ParseFloat(lit, 64)] fails exactly when the literal rounds to
    an infinity: when its magnitude reaches [2^1024 - 2^970]. *)
Definition float64_overflow (lit : string) : bool :=
  let '(_, int, frac, exp) := number_parts lit in
  let d := decimal 0 (int +:+ frac) in
  let e := exp - Z.of_nat (String.length frac) in
  let limit := 2 ^ 1024 - 2 ^ 970 in
  if d =? 0 then false
  else if 0 <=? e then (310 <? e) || (limit <=? d * 10 ^ e)
  else if Z.of_nat (String.length (int +:+ frac)) <? - e then false
  else limit * 10 ^ (- e) <=? d.

(** [strconv.ParseInt(lit, 10, 64)]. *)
Definition parse_int (lit : string) : option Z :=
  let '(neg, int, frac, _) := number_parts lit in
  if String.eqb lit ((if neg then "-" else "") +:+ int) then
    let n := if neg then - decimal 0 int else decimal 0 int in
    if (- 2 ^ 63 <=? n) && (n <? 2 ^ 63) then Some n else None
  else None.

(** Of the members of an object, the last one of each key: what is left in
    the map after they were inserted in order. *)
Fixpoint last_wins (ms : list (string * json)) : list (string * json) :=
  match ms with
  | [] => []
  | (k, v) :: ms' =>
      if existsb (fun m => String.eqb (fst m) k) ms' then last_wins ms'
      else (k, v) :: last_wins ms'
  end.

(** A value stored into an [interface{}]. *)
Fixpoint to_interface (j : json) : option json :=
  match j with
  | JNumber lit => if float64_overflow lit then None else Some j
  | JArray es =>
      match
        (fix all (es : list json) : option (list json) :=
           match es with
           | [] => Some []
           | e :: es' =>
               match to_interface e, all es' with
               | Some e', Some es'' => Some (e' :: es'')
               | _, _ => None
               end
           end) es
      with
      | Some es' => Some (JArray es')
      | None => None
      end
  | JObject ms =>
      match
        (fix all (ms : list (string * json)) : option (list (string * json)) :=
           match ms with
           | [] => Some []
           | (k, v) :: ms' =>
               match to_interface v, all ms' with
               | Some v', Some ms'' => Some ((k, v') :: ms'')
               | _, _ => None
               end
           end) ms
      with
      | Some ms' => Some (JObject (last_wins ms'))
      | None => None
      end
  | _ => Some j
  end.

(** How a value is stored into a target of type [T] that holds [cur]. *)
Definition store (T : Type) : Type := json → T → option T.

Definition store_string : store string := fun j cur =>
  match j with JNull => Some cur | JString s => Some s | _ => None end.

Definition store_int : store Z := fun j cur =>
  match j with JNull => Some cur | JNumber lit => parse_int lit | _ => None end.

Definition store_bool : store bool := fun j cur =>
  match j with JNull => Some cur | JBool b => Some b | _ => None end.

Definition store_interface : store json := fun j _ => to_interface j.

(** A field of a struct [T], of type [U]. *)
Definition field {T U : Type} (get : T → U) (set : T → U → T) (st : store U)
    : store T :=
  fun j cur => match st j (get cur) with Some u => Some (set cur u) | None => None end.

(** A pointer: [null] makes it [nil]; another value is stored into what it
    points to, into fresh memory when it is [nil]. *)
Definition pointer {U : Type} (zero : U) (st : store U) : store (option U) :=
  fun j cur =>
    match j with
    | JNull => Some None
    | _ => match st j (default zero cur) with Some u => Some (Some u) | None => None end
    end.

(** The members of an object stored in order into the fields of a struct. *)
Fixpoint store_members {T : Type} (fields : list (string * store T))
    (ms : list (string * json)) (cur : T) : option T :=
  match ms with
  | [] => Some cur
  | (k, v) :: ms' =>
      match List.find (fun f => String.eqb (fold_name (fst f)) (fold_name k)) fields with
      | Some (_, st) =>
          match st v cur with
          | Some cur' => store_members fields ms' cur'
          | None => None
          end
      | None => store_members fields ms' cur
      end
  end.

Definition store_struct {T : Type} (fields : list (string * store T)) : store T :=
  fun j cur =>
    match j with
    | JNull => Some cur
    | JObject ms => store_members fields ms cur
    | _ => None
    end.

(** A slice: its elements are stored one by one. (When the key of the slice
    is repeated within one object Go stores into the elements of the earlier
    slice; here every element starts from [zero].) *)
Definition store_slice {U : Type} (zero : U) (st : store U) : store (list U) :=
  fun j _ =>
    match j with
    | JNull => Some []
    | JArray es =>
        foldr (fun e acc =>
                 match st e zero, acc with
                 | Some u, Some us => Some (u :: us)
                 | _, _ => None
                 end) (Some []) es
    | _ => None
    end.

(** *** The structs of the repository *)

Definition store_ImageSource : store ImageSource.t :=
  store_struct
    [ ("type", field ImageSource.Type_
         (fun x v => ImageSource.mk v (ImageSource.MediaType x) (ImageSource.Data x) (ImageSource.URL x))
         store_string);
      ("media_type", field ImageSource.MediaType
         (fun x v => ImageSource.mk (ImageSource.Type_ x) v (ImageSource.Data x) (ImageSource.URL x))
         store_string);
      ("data", field ImageSource.Data
         (fun x v => ImageSource.mk (ImageSource.Type_ x) (ImageSource.MediaType x) v (ImageSource.URL x))
         store_string);
      ("url", field ImageSource.URL
         (fun x v => ImageSource.mk (ImageSource.Type_ x) (ImageSource.MediaType x) (ImageSource.Data x) v)
         store_string) ].

Definition store_TextBlock : store TextBlock.t :=
  store_struct
    [ ("type", field TextBlock.Type_ (fun x v => TextBlock.mk v (TextBlock.Text x)) store_string);
      ("text", field TextBlock.Text set_Text store_string) ].

Definition store_ImageBlock : store ImageBlock.t :=
  store_struct
    [ ("type", field ImageBlock.Type_ (fun x v => ImageBlock.mk v (ImageBlock.Source x)) store_string);
      ("source", field ImageBlock.Source (fun x v => ImageBlock.mk (ImageBlock.Type_ x) v)
         store_ImageSource) ].

Definition store_ToolUseBlock : store ToolUseBlock.t :=
  store_struct
    [ ("type", field ToolUseBlock.Type_
         (fun x v => ToolUseBlock.mk v (ToolUseBlock.ID x) (ToolUseBlock.Name x) (ToolUseBlock.Input x))
         store_string);
      ("id", field ToolUseBlock.ID
         (fun x v => ToolUseBlock.mk (ToolUseBlock.Type_ x) v (ToolUseBlock.Name x) (ToolUseBlock.Input x))
         store_string);
      ("name", field ToolUseBlock.Name
         (fun x v => ToolUseBlock.mk (ToolUseBlock.Type_ x) (ToolUseBlock.ID x) v (ToolUseBlock.Input x))
         store_string);
      ("input", field ToolUseBlock.Input set_Input store_interface) ].

Definition store_ToolResultBlock : store ToolResultBlock.t :=
  store_struct
    [ ("type", field ToolResultBlock.Type_
         (fun x v => ToolResultBlock.mk v (ToolResultBlock.ToolUseID x)
                       (ToolResultBlock.Content x) (ToolResultBlock.IsError x))
         store_string);
      ("tool_use_id", field ToolResultBlock.ToolUseID
         (fun x v => ToolResultBlock.mk (ToolResultBlock.Type_ x) v
                       (ToolResultBlock.Content x) (ToolResultBlock.IsError x))
         store_string);
      ("content", field ToolResultBlock.Content
         (fun x v => ToolResultBlock.mk (ToolResultBlock.Type_ x) (ToolResultBlock.ToolUseID x)
                       v (ToolResultBlock.IsError x))
         store_string);
      ("is_error", field ToolResultBlock.IsError
         (fun x v => ToolResultBlock.mk (ToolResultBlock.Type_ x) (ToolResultBlock.ToolUseID x)
                       (ToolResultBlock.Content x) v)
         store_bool) ].

Definition store_ThinkingBlock : store ThinkingBlock.t :=
  store_struct
    [ ("type", field ThinkingBlock.Type_
         (fun x v => ThinkingBlock.mk v (ThinkingBlock.Thinking x) (ThinkingBlock.Signature x))
         store_string);
      ("thinking", field ThinkingBlock.Thinking set_Thinking store_string);
      ("signature", field ThinkingBlock.Signature set_Signature store_string) ].

Definition store_RedactedThinkingBlock : store RedactedThinkingBlock.t :=
  store_struct
    [ ("type", field RedactedThinkingBlock.Type_
         (fun x v => RedactedThinkingBlock.mk v (RedactedThinkingBlock.Data x)) store_string);
      ("data", field RedactedThinkingBlock.Data
         (fun x v => RedactedThinkingBlock.mk (RedactedThinkingBlock.Type_ x) v) store_string) ].

(** [func (c *ContentBlock) UnmarshalJSON(data []byte) error] of package
    [models]: the type is read first, then [data] is decoded as the struct of
    that type and the pointer to it stored in [c]; the other fields of [c]
    stay as they are, and so does [c] for a type that is not known. *)
Definition UnmarshalJSON : store ContentBlock.t := fun data c =>
  match store_struct [("type", field id (fun _ v => v) store_string)] data "" with
  | None => None
  | Some typeCheck =>
      if decide (typeCheck = TextContentType) then
        match store_TextBlock data TextBlock.zero with
        | Some textBlock => Some (set_TextContent c (Some textBlock))
        | None => None
        end
      else if decide (typeCheck = ImageContentType) then
        match store_ImageBlock data ImageBlock.zero with
        | Some imageBlock => Some (set_ImageContent c (Some imageBlock))
        | None => None
        end
      else if decide (typeCheck = ToolUseContentType) then
        match store_ToolUseBlock data ToolUseBlock.zero with
        | Some toolUseBlock => Some (set_ToolUseContent c (Some toolUseBlock))
        | None => None
        end
      else if decide (typeCheck = ToolResultContentType) then
        match store_ToolResultBlock data ToolResultBlock.zero with
        | Some toolResultBlock => Some (set_ToolResultContent c (Some toolResultBlock))
        | None => None
        end
      else if decide (typeCheck = ThinkingContentType) then
        match store_ThinkingBlock data ThinkingBlock.zero with
        | Some thinkingBlock => Some (set_ThinkingContent c (Some thinkingBlock))
        | None => None
        end
      else if decide (typeCheck = RedactedThinkingContentType) then
        match store_RedactedThinkingBlock data RedactedThinkingBlock.zero with
        | Some redactedThinkingBlock =>
            Some (set_RedactedThinkingContent c (Some redactedThinkingBlock))
        | None => None
        end
      else Some c
  end.

Definition store_Usage : store Usage.t :=
  store_struct
    [ ("input_tokens", field Usage.InputTokens
         (fun x v => Usage.mk v (Usage.OutputTokens x)) store_int);
      ("output_tokens", field Usage.OutputTokens
         (fun x v => Usage.mk (Usage.InputTokens x) v) store_int) ].

Definition store_Message : store Message.t :=
  store_struct
    [ ("id", field Message.ID set_ID store_string);
      ("role", field Message.Role set_Role store_string);
      ("content", field Message.Content set_Content
         (store_slice ContentBlock.zero UnmarshalJSON));
      ("model", field Message.Model set_Model store_string);
      ("stop_reason", field Message.StopReason set_StopReason store_string);
      ("stop_sequence", field Message.StopSequence set_StopSequence store_string);
      ("usage", field Message.Usage set_Usage store_Usage) ].

Definition store_Delta : store Delta.t :=
  store_struct
    [ ("type", field Delta.Type_
         (fun x v => Delta.mk v (Delta.Text x) (Delta.PartialJSON x) (Delta.Thinking x)
                       (Delta.Signature x)) store_string);
      ("text", field Delta.Text
         (fun x v => Delta.mk (Delta.Type_ x) v (Delta.PartialJSON x) (Delta.Thinking x)
                       (Delta.Signature x)) store_string);
      ("partial_json", field Delta.PartialJSON
         (fun x v => Delta.mk (Delta.Type_ x) (Delta.Text x) v (Delta.Thinking x)
                       (Delta.Signature x)) store_string);
      ("thinking", field Delta.Thinking
         (fun x v => Delta.mk (Delta.Type_ x) (Delta.Text x) (Delta.PartialJSON x) v
                       (Delta.Signature x)) store_string);
      ("signature", field Delta.Signature
         (fun x v => Delta.mk (Delta.Type_ x) (Delta.Text x) (Delta.PartialJSON x)
                       (Delta.Thinking x) v) store_string) ].

Definition store_Event : store Event.t :=
  store_struct
    [ ("type", field Event.Type_
         (fun x v => Event.mk v (Event.Message x) (Event.StopReason x) (Event.Index x)
                       (Event.ContentBlock x) (Event.Delta x) (Event.Usage x))
         store_string);
      ("message", field Event.Message
         (fun x v => Event.mk (Event.Type_ x) v (Event.StopReason x) (Event.Index x)
                       (Event.ContentBlock x) (Event.Delta x) (Event.Usage x))
         (pointer Message.zero store_Message));
      ("stop_reason", field Event.StopReason
         (fun x v => Event.mk (Event.Type_ x) (Event.Message x) v (Event.Index x)
                       (Event.ContentBlock x) (Event.Delta x) (Event.Usage x))
         (pointer "" store_string));
      ("index", field Event.Index
         (fun x v => Event.mk (Event.Type_ x) (Event.Message x) (Event.StopReason x) v
                       (Event.ContentBlock x) (Event.Delta x) (Event.Usage x))
         (pointer 0 store_int));
      ("content_block", field Event.ContentBlock
         (fun x v => Event.mk (Event.Type_ x) (Event.Message x) (Event.StopReason x)
                       (Event.Index x) v (Event.Delta x) (Event.Usage x))
         (pointer ContentBlock.zero UnmarshalJSON));
      ("delta", field Event.Delta
         (fun x v => Event.mk (Event.Type_ x) (Event.Message x) (Event.StopReason x)
                       (Event.Index x) (Event.ContentBlock x) v (Event.Usage x))
         (pointer Delta.zero store_Delta));
      ("usage", field Event.Usage
         (fun x v => Event.mk (Event.Type_ x) (Event.Message x) (Event.StopReason x)
                       (Event.Index x) (Event.ContentBlock x) (Event.Delta x) v)
         (pointer Usage.zero store_Usage)) ].

(** [json.Unmarshal(data, &event)] for [var event Event]. *)
Definition Unmarshal_Event (data : string) : option Event.t :=
  match parse data with
  | Some j => store_Event j Event.zero
  | None => None
  end.

(** [json.Unmarshal(data, &inputObj)] for [var inputObj map[string]interface{}].
    For the text [null] the map stays [nil], which reads as [JNull] here. *)
Definition Unmarshal_map (data : string) : option json :=
  match parse data with
  | Some (JObject ms) => to_interface (JObject ms)
  | Some JNull => Some JNull
  | _ => None
  end.

End Json.

#[global] Instance encoding_json : Unmarshal :=
  {| json_Unmarshal_Event := Json.Unmarshal_Event;
     json_Unmarshal_map := Json.Unmarshal_map |}.

(** * What the assembler does to one content block

    The block at a position of the content sequence, read as the placeholder
    where the sequence has not grown that far yet, and the JSON buffer of the
    position: [step] is what one event does to the two. *)

Definition content (s : MessageStream.t) : list ContentBlock.t :=
  Message.Content (MessageStream.message s).

Definition block_at (s : MessageStream.t) (j : nat) : ContentBlock.t :=
  default ContentBlock.zero (content s !! j).

Section Step.
Context `{Unmarshal}.

(** The tool-use block after a parse attempt on [jsonStr]. *)
Definition parsed (tu : ToolUseBlock.t) (jsonStr : string) : ToolUseBlock.t :=
  if HasPrefix jsonStr "{" && HasSuffix jsonStr "}" then
    match json_Unmarshal_map jsonStr with
    | Some inputObj => set_Input tu inputObj
    | None => tu
    end
  else tu.

Definition step_delta (delta : Delta.t) (v : ContentBlock.t * string)
    : ContentBlock.t * string :=
  let '(b, buf) := v in
  if decide (Delta.Type_ delta = "text_delta") then
    match ContentBlock.TextContent b with
    | Some tb =>
        (set_TextContent b (Some (set_Text tb (TextBlock.Text tb +:+ Delta.Text delta))), buf)
    | None => v
    end
  else if decide (Delta.Type_ delta = "input_json_delta") then
    match ContentBlock.ToolUseContent b with
    | Some tu =>
        let jsonStr := buf +:+ Delta.PartialJSON delta in
        (set_ToolUseContent b (Some (parsed tu jsonStr)), jsonStr)
    | None => v
    end
  else if decide (Delta.Type_ delta = "thinking_delta") then
    match ContentBlock.ThinkingContent b with
    | Some th =>
        (set_ThinkingContent b
           (Some (set_Thinking th (ThinkingBlock.Thinking th +:+ Delta.Thinking delta))), buf)
    | None => v
    end
  else if decide (Delta.Type_ delta = "signature_delta") then
    match ContentBlock.ThinkingContent b with
    | Some th => (set_ThinkingContent b (Some (set_Signature th (Delta.Signature delta))), buf)
    | None => v
    end
  else v.

Definition step (event : Event.t) (j : nat) (v : ContentBlock.t * string)
    : ContentBlock.t * string :=
  if decide (Event.Index event = Some (Z.of_nat j)) then
    if decide (Event.Type_ event = ContentBlockStartEvent) then
      match Event.ContentBlock event with
      | Some cb =>
          (cb, match ContentBlock.ToolUseContent cb with Some _ => "" | None => snd v end)
      | None => v
      end
    else if decide (Event.Type_ event = ContentBlockDeltaEvent) then
      match Event.Delta event with
      | Some delta => step_delta delta v
      | None => v
      end
    else if decide (Event.Type_ event = ContentBlockStopEvent) then
      match ContentBlock.ToolUseContent (fst v) with
      | Some tu => (set_ToolUseContent (fst v) (Some (parsed tu (snd v))), snd v)
      | None => v
      end
    else v
  else v.

Definition steps (events : list Event.t) (j : nat) (v : ContentBlock.t * string)
    : ContentBlock.t * string :=
  foldl (fun v event => step event j v) v events.

End Step.

(** ** The life cycle of a block index *)

(** An event of one of the three block kinds that carries the index [j]. *)
Definition addresses (kind : string) (j : nat) (event : Event.t) : Prop :=
  Event.Type_ event = kind ∧ Event.Index event = Some (Z.of_nat j).

#[global] Instance addresses_dec kind j event : Decision (addresses kind j event).
Proof. unfold addresses. apply _. Defined.

Inductive phase : Type := Unopened | Open | Closed.

(** Start, then deltas, then stop: the phase of index [j] after [event], or
    [None] when the event comes out of turn. Events of other kinds and of
    other indices leave the phase alone. *)
Definition phase_step (j : nat) (p : phase) (event : Event.t) : option phase :=
  if decide (addresses ContentBlockStartEvent j event) then
    match p with Unopened => Some Open | _ => None end
  else if decide (addresses ContentBlockDeltaEvent j event) then
    match p with Open => Some Open | _ => None end
  else if decide (addresses ContentBlockStopEvent j event) then
    match p with Open => Some Closed | _ => None end
  else Some p.

Fixpoint phase_after (j : nat) (p : phase) (events : list Event.t) : option phase :=
  match events with
  | [] => Some p
  | event :: events' =>
      match phase_step j p event with
      | Some p' => phase_after j p' events'
      | None => None
      end
  end.

(** Every index of the sequence is zero-based, and was either never
    addressed or went through start, deltas and stop, in this order. *)
Definition lifecycle (events : list Event.t) : Prop :=
  (∀ event idx, event ∈ events → Event.Index event = Some idx → 0 ≤ idx) ∧
  ∀ j, phase_after j Unopened events = Some Unopened ∨
       phase_after j Unopened events = Some Closed.

(** The fragment an event brings to index [j]: that of a delta of kind
    [kind] addressed to [j], read by [fragment]. *)
Definition fragment_of (kind : string) (fragment : Delta.t → string) (j : nat)
    (event : Event.t) : option string :=
  if decide (addresses ContentBlockDeltaEvent j event) then
    match Event.Delta event with
    | Some delta =>
        if decide (Delta.Type_ delta = kind) then Some (fragment delta) else None
    | None => None
    end
  else None.

(** The fragments of the deltas of kind [kind] for index [j], in event order. *)
Definition fragments (kind : string) (fragment : Delta.t → string) (j : nat)
    (events : list Event.t) : list string :=
  omap (fragment_of kind fragment j) events.

Definition concat_strings (l : list string) : string :=
  foldr String.append "" l.

(** An event that is none of the three block events of index [j]. *)
Definition quiet (j : nat) (event : Event.t) : Prop :=
  ¬ addresses ContentBlockStartEvent j event ∧
  ¬ addresses ContentBlockDeltaEvent j event ∧
  ¬ addresses ContentBlockStopEvent j event.

(** The length of the content sequence after an event. *)
Definition grown (event : Event.t) (len : Z) : Z :=
  if decide (Event.Type_ event = ContentBlockStartEvent) then
    match Event.ContentBlock event, Event.Index event with
    | Some _, Some idx => Z.max len (idx + 1)
    | _, _ => len
    end
  else len.

(** ** Checking a life cycle by computation *)

Definition indices (events : list Event.t) : list Z := omap Event.Index events.

Definition closed_or_unopened (p : option phase) : bool :=
  match p with
  | Some Unopened | Some Closed => true
  | _ => false
  end.

(** The indices that occur are zero-based and each went through its life
    cycle; an index that does not occur was never addressed. *)
Definition lifecycle_ok (events : list Event.t) : bool :=
  forallb (fun idx => bool_decide (0 ≤ idx)) (indices events) &&
  forallb (fun idx => closed_or_unopened (phase_after (Z.to_nat idx) Unopened events))
    (indices events).

(** ** Streams of lines *)

Definition newline : string := String "010" "".

(** The bytes hold no line feed: a last line that was not terminated. *)
Definition unterminated (s : string) : Prop := cut_at "010" s = None.

(** Each line followed by a line feed. *)
Definition lines (ls : list string) : string :=
  foldr (fun l rest => l +:+ newline +:+ rest) "" ls.

Definition stream_of (ls : list string) : MessageStream.t :=
  NewMessageStream (Reader.mk (lines ls) EOF).

(** The JSON texts of the examples are written with an apostrophe where
    JSON has a double quote; [quoted] puts the double quotes in. *)
Fixpoint quoted (s : string) : string :=
  match s with
  | EmptyString => EmptyString
  | String c s' => String (if Ascii.eqb c "'" then "034"%char else c) (quoted s')
  end.

(** ** Example data *)

Module Example.

Definition text_block (text : string) : ContentBlock.t :=
  set_TextContent ContentBlock.zero (Some (TextBlock.mk TextContentType text)).

Definition tool_block (input : json) : ContentBlock.t :=
  set_ToolUseContent ContentBlock.zero
    (Some (ToolUseBlock.mk ToolUseContentType "toolu_1" "calculator" input)).

Definition thinking_block (thinking signature : string) : ContentBlock.t :=
  set_ThinkingContent ContentBlock.zero
    (Some (ThinkingBlock.mk ThinkingContentType thinking signature)).

Definition start (idx : Z) (cb : ContentBlock.t) : Event.t :=
  Event.mk ContentBlockStartEvent None None (Some idx) (Some cb) None None.

Definition text_delta (idx : Z) (text : string) : Event.t :=
  Event.mk ContentBlockDeltaEvent None None (Some idx) None
    (Some (Delta.mk "text_delta" text "" "" "")) None.

Definition json_delta (idx : Z) (partial_json : string) : Event.t :=
  Event.mk ContentBlockDeltaEvent None None (Some idx) None
    (Some (Delta.mk "input_json_delta" "" partial_json "" "")) None.

Definition signature_delta (idx : Z) (signature : string) : Event.t :=
  Event.mk ContentBlockDeltaEvent None None (Some idx) None
    (Some (Delta.mk "signature_delta" "" "" "" signature)) None.

Definition stop (idx : Z) : Event.t :=
  Event.mk ContentBlockStopEvent None None (Some idx) None None None.

(** A stream that has accumulated [blocks] and has nothing left to read. *)
Definition accumulated (blocks : list ContentBlock.t) : MessageStream.t :=
  MessageStream.mk (Reader.mk "" EOF) None None (set_Content Message.zero blocks) ∅.

(** The input of the tool-use block at position [j] of the outcome. *)
Definition input_at (j : nat) (r : outcome MessageStream.t) : option json :=
  match r with
  | Done s =>
      match content s !! j with
      | Some b =>
          match ContentBlock.ToolUseContent b with
          | Some tu => Some (ToolUseBlock.Input tu)
          | None => None
          end
      | None => None
      end
  | _ => None
  end.

(** A tool-use block at index 0 streamed in the fragments [frags]. *)
Definition tool_call (frags : list string) : list Event.t :=
  start 0 (tool_block (JObject [])) :: map (json_delta 0) frags ++ [stop 0].

(** The six event documents of the end-to-end scenario. *)
Definition scenario : list string :=
  map quoted
    [ "{'type':'message_start','message':{'id':'m1','role':'assistant'}}";
      "{'type':'content_block_start','index':0,'content_block':{'type':'text','text':''}}";
      "{'type':'content_block_delta','index':0,'delta':{'type':'text_delta','text':'Hel'}}";
      "{'type':'content_block_delta','index':0,'delta':{'type':'text_delta','text':'lo'}}";
      "{'type':'content_block_stop','index':0}";
      "{'type':'message_stop','stop_reason':'end_turn','usage':{'input_tokens':5,'output_tokens':2}}" ].

(** The message the scenario is to end with. *)
Definition hello : Message.t :=
  Message.mk "m1" AssistantRole [text_block "Hello"] "" EndTurn "" (Usage.mk 5 2).

End Example.

(** * More of the assembler and of the decoder *)

(** The delta types [updateMessage] has a branch for. *)
Definition known_delta (delta : Delta.t) : Prop :=
  Delta.Type_ delta = "text_delta" ∨ Delta.Type_ delta = "input_json_delta" ∨
  Delta.Type_ delta = "thinking_delta" ∨ Delta.Type_ delta = "signature_delta".

(** The events for which [updateMessage] indexes the content sequence
    whatever the index is. *)
Definition indexes_content (event : Event.t) : Prop :=
  (Event.Type_ event = ContentBlockStartEvent ∧ is_Some (Event.ContentBlock event)) ∨
  (Event.Type_ event = ContentBlockDeltaEvent ∧
   ∃ delta, Event.Delta event = Some delta ∧ known_delta delta) ∨
  Event.Type_ event = ContentBlockStopEvent.

(** The variant a delta is merged into is populated in the block. *)
Definition delta_applies (delta : Delta.t) (b : ContentBlock.t) : Prop :=
  (Delta.Type_ delta = "text_delta" ∧ is_Some (ContentBlock.TextContent b)) ∨
  (Delta.Type_ delta = "input_json_delta" ∧ is_Some (ContentBlock.ToolUseContent b)) ∨
  (Delta.Type_ delta = "thinking_delta" ∧ is_Some (ContentBlock.ThinkingContent b)) ∨
  (Delta.Type_ delta = "signature_delta" ∧ is_Some (ContentBlock.ThinkingContent b)).

(** The fields of the message next to its content: those [message_start]
    writes, and those of the end of the message. *)
Definition message_identity (m : Message.t) : string * string * string :=
  (Message.ID m, Message.Role m, Message.Model m).

Definition message_completion (m : Message.t) : string * string * Usage.t :=
  (Message.StopReason m, Message.StopSequence m, Message.Usage m).

(** What [Next] makes of a line it has read: the payload of a data line, or
    [None] for a line it skips. *)
Definition payload_of (raw : string) : option string :=
  let line := TrimSpace raw in
  if decide (String.length line = 0%nat) then None
  else if HasPrefix line "data: " then Some (drop_bytes 6 line) else None.

(** The stream state [s] with another reader, current event and error. *)
Definition with_acc (r : Reader.t) (c : option Event.t) (er : option stream_error)
    (s : MessageStream.t) : MessageStream.t :=
  MessageStream.mk r c er (MessageStream.message s) (MessageStream.jsonBuffers s).

(** The current event once [events] were delivered. *)
Definition current_after (cur : option Event.t) (events : list Event.t)
    : option Event.t :=
  match last events with Some e => Some e | None => cur end.

Section Lines.
Context `{Unmarshal}.

(** The events of the data lines among [ls], when each of them decodes. *)
Definition events_of (ls : list string) : option (list Event.t) :=
  mapM json_Unmarshal_Event (omap (fun l => payload_of (l +:+ newline)) ls).

End Lines.

(** * Decoded content blocks *)

(** The number of variants a block has populated. *)
Definition populated (c : ContentBlock.t) : nat :=
  (if ContentBlock.TextContent c is Some _ then 1 else 0) +
  (if ContentBlock.ImageContent c is Some _ then 1 else 0) +
  (if ContentBlock.ToolUseContent c is Some _ then 1 else 0) +
  (if ContentBlock.ToolResultContent c is Some _ then 1 else 0) +
  (if ContentBlock.ThinkingContent c is Some _ then 1 else 0) +
  (if ContentBlock.RedactedThinkingContent c is Some _ then 1 else 0).

(** Every populated variant carries the type tag of its kind. *)
Definition well_tagged (c : ContentBlock.t) : Prop :=
  (∀ b, ContentBlock.TextContent c = Some b → TextBlock.Type_ b = TextContentType) ∧
  (∀ b, ContentBlock.ImageContent c = Some b → ImageBlock.Type_ b = ImageContentType) ∧
  (∀ b, ContentBlock.ToolUseContent c = Some b →
        ToolUseBlock.Type_ b = ToolUseContentType) ∧
  (∀ b, ContentBlock.ToolResultContent c = Some b →
        ToolResultBlock.Type_ b = ToolResultContentType) ∧
  (∀ b, ContentBlock.ThinkingContent c = Some b →
        ThinkingBlock.Type_ b = ThinkingContentType) ∧
  (∀ b, ContentBlock.RedactedThinkingContent c = Some b →
        RedactedThinkingBlock.Type_ b = RedactedThinkingContentType).

(** The type [UnmarshalJSON] reads from [data] into [typeCheck] before
    anything else. *)
Definition type_tag (data : json) : option string :=
  Json.store_struct [("type", Json.field id (fun _ v => v) Json.store_string)] data "".

(** The types [UnmarshalJSON] has a case for. *)
Definition known_types : list string :=
  [TextContentType; ImageContentType; ToolUseContentType; ToolResultContentType;
   ThinkingContentType; RedactedThinkingContentType].

(** * API errors

    [ParseAPIError] of the package [anthropic], and what [request] and
    [CreateMessageStream] make of a response with a status of 400 and
    above. *)

Module RateLimitInfo.
Record t : Type := mk { ResetAfter : Z; LimitType : string }.
Definition zero : t := mk 0 "".
End RateLimitInfo.

(** [Metadata] is a [map[string]string]; a [nil] map and an empty one are
    both the empty map here (the code takes the length of the map and
    ranges over it, nothing else). *)
Module APIError.
Record t : Type := mk {
  Type_ : string;
  Message : string;
  Code : string;
  Param : string;
  StatusCode : Z;
  RawResponse : string;
  RequestID : string;
  RateLimitInfo : option RateLimitInfo.t;
  Metadata : gmap string string
}.
Definition zero : t := mk "" "" "" "" 0 "" "" None ∅.
End APIError.

(** The anonymous struct [anthropicResp] of [ParseAPIError]. *)
Module Envelope.
Record t : Type := mk { Type_ : string; Error : option APIError.t }.
Definition zero : t := mk "" None.
End Envelope.

Definition set_StatusCode (e : APIError.t) (v : Z) : APIError.t :=
  APIError.mk (APIError.Type_ e) (APIError.Message e) (APIError.Code e) (APIError.Param e)
    v (APIError.RawResponse e) (APIError.RequestID e) (APIError.RateLimitInfo e)
    (APIError.Metadata e).

Definition set_RawResponse (e : APIError.t) (v : string) : APIError.t :=
  APIError.mk (APIError.Type_ e) (APIError.Message e) (APIError.Code e) (APIError.Param e)
    (APIError.StatusCode e) v (APIError.RequestID e) (APIError.RateLimitInfo e)
    (APIError.Metadata e).

Definition set_RequestID (e : APIError.t) (v : string) : APIError.t :=
  APIError.mk (APIError.Type_ e) (APIError.Message e) (APIError.Code e) (APIError.Param e)
    (APIError.StatusCode e) (APIError.RawResponse e) v (APIError.RateLimitInfo e)
    (APIError.Metadata e).

Definition set_RateLimitInfo (e : APIError.t) (v : option RateLimitInfo.t) : APIError.t :=
  APIError.mk (APIError.Type_ e) (APIError.Message e) (APIError.Code e) (APIError.Param e)
    (APIError.StatusCode e) (APIError.RawResponse e) (APIError.RequestID e) v
    (APIError.Metadata e).

(** [encoding/json] storing into a [map[string]string]: [null] makes the map
    [nil]; the members of an object are added to the map that is there, each
    value stored into a fresh empty string. *)
Fixpoint store_entries (ms : list (string * json)) (cur : gmap string string)
    : option (gmap string string) :=
  match ms with
  | [] => Some cur
  | (k, v) :: ms' =>
      match Json.store_string v "" with
      | Some s => store_entries ms' (<[k := s]> cur)
      | None => None
      end
  end.

Definition store_metadata : Json.store (gmap string string) := fun j cur =>
  match j with
  | JNull => Some ∅
  | JObject ms => store_entries ms cur
  | _ => None
  end.

(** The fields of [APIError] that have a JSON name; [StatusCode],
    [RawResponse] and [RateLimitInfo] are tagged [json:"-"]. *)
Definition store_APIError : Json.store APIError.t :=
  Json.store_struct
    [ ("type", Json.field APIError.Type_
         (fun x v => APIError.mk v (APIError.Message x) (APIError.Code x) (APIError.Param x)
            (APIError.StatusCode x) (APIError.RawResponse x) (APIError.RequestID x)
            (APIError.RateLimitInfo x) (APIError.Metadata x)) Json.store_string);
      ("message", Json.field APIError.Message
         (fun x v => APIError.mk (APIError.Type_ x) v (APIError.Code x) (APIError.Param x)
            (APIError.StatusCode x) (APIError.RawResponse x) (APIError.RequestID x)
            (APIError.RateLimitInfo x) (APIError.Metadata x)) Json.store_string);
      ("code", Json.field APIError.Code
         (fun x v => APIError.mk (APIError.Type_ x) (APIError.Message x) v (APIError.Param x)
            (APIError.StatusCode x) (APIError.RawResponse x) (APIError.RequestID x)
            (APIError.RateLimitInfo x) (APIError.Metadata x)) Json.store_string);
      ("param", Json.field APIError.Param
         (fun x v => APIError.mk (APIError.Type_ x) (APIError.Message x) (APIError.Code x) v
            (APIError.StatusCode x) (APIError.RawResponse x) (APIError.RequestID x)
            (APIError.RateLimitInfo x) (APIError.Metadata x)) Json.store_string);
      ("request_id", Json.field APIError.RequestID set_RequestID Json.store_string);
      ("metadata", Json.field APIError.Metadata
         (fun x v => APIError.mk (APIError.Type_ x) (APIError.Message x) (APIError.Code x)
            (APIError.Param x) (APIError.StatusCode x) (APIError.RawResponse x)
            (APIError.RequestID x) (APIError.RateLimitInfo x) v) store_metadata) ].

Definition store_Envelope : Json.store Envelope.t :=
  Json.store_struct
    [ ("type", Json.field Envelope.Type_ (fun x v => Envelope.mk v (Envelope.Error x))
         Json.store_string);
      ("error", Json.field Envelope.Error (fun x v => Envelope.mk (Envelope.Type_ x) v)
         (Json.pointer APIError.zero store_APIError)) ].

(** [json.Unmarshal(data, &v)]: the document is checked whole, then stored;
    what was stored before an error is not used by the callers here. *)
Definition json_Unmarshal {T : Type} (st : Json.store T) (data : string) (v : T)
    : option T :=
  match Json.parse data with
  | Some j => st j v
  | None => None
  end.

Definition IsRateLimitError (e : APIError.t) : bool :=
  bool_decide (APIError.Type_ e = "rate_limit_error").

(** [strconv.Atoi]: an optional sign and decimal digits, at least one, the
    value within the 64 bits of an [int]. *)
Definition digit_of (c : ascii) : option Z :=
  let n := Z.of_N (N_of_ascii c) in
  if decide (48 ≤ n ≤ 57) then Some (n - 48) else None.

Fixpoint digits_of (acc : Z) (s : string) : option Z :=
  match s with
  | EmptyString => Some acc
  | String c s' =>
      match digit_of c with
      | Some d => digits_of (acc * 10 + d) s'
      | None => None
      end
  end.

Definition Atoi (s : string) : option Z :=
  let '(neg, body) :=
    match s with
    | String "-" rest => (true, rest)
    | String "+" rest => (false, rest)
    | _ => (false, s)
    end in
  match body with
  | EmptyString => None
  | _ =>
      match digits_of 0 body with
      | Some n =>
          let v := if neg : bool then - n else n in
          if decide (- 2 ^ 63 ≤ v ≤ 2 ^ 63 - 1) then Some v else None
      | None => None
      end
  end.

Section Errors.

(** The text of the error [json.Unmarshal] returns for a document it does
    not store into an [APIError]. *)
Variable error_text : string → string.

Definition ParseAPIError (statusCode : Z) (data : string) : APIError.t :=
  let apiErr := set_RawResponse (set_StatusCode APIError.zero statusCode) data in
  match json_Unmarshal store_Envelope data Envelope.zero with
  | Some (Envelope.mk _ (Some error)) =>
      set_RawResponse (set_StatusCode error statusCode) data
  | _ =>
      match json_Unmarshal store_APIError data apiErr with
      | None =>
          APIError.mk "parse_error"
            ("Failed to parse error response: " +:+ error_text data)
            "" "" statusCode data "" None ∅
      | Some apiErr =>
          if IsRateLimitError apiErr
          then set_RateLimitInfo apiErr (Some RateLimitInfo.zero)
          else apiErr
      end
  end.

(** The error [request] and [CreateMessageStream] return for a response
    with a status of 400 and above: [Get] is [resp.Header.Get], [respData]
    the body read to its end. *)
Definition response_error (statusCode : Z) (Get : string → string) (respData : string)
    : APIError.t :=
  let apiErr := ParseAPIError statusCode respData in
  let apiErr :=
    let requestID := Get "x-request-id" in
    if decide (requestID ≠ "") then set_RequestID apiErr requestID else apiErr in
  if IsRateLimitError apiErr then
    let info := RateLimitInfo.zero in
    let info :=
      let retryAfter := Get "retry-after" in
      if decide (retryAfter ≠ "") then
        match Atoi retryAfter with
        | Some seconds => RateLimitInfo.mk seconds (RateLimitInfo.LimitType info)
        | None => info
        end
      else info in
    let info := RateLimitInfo.mk (RateLimitInfo.ResetAfter info)
                  (Get "x-ratelimit-limit-type") in
    set_RateLimitInfo apiErr (Some info)
  else apiErr.

End Errors.

(** The error object of a response in the enveloped form
    [{"type": "error", "error": {...}}], when it has one. *)
Definition enveloped (data : string) : option APIError.t :=
  match json_Unmarshal store_Envelope data Envelope.zero with
  | Some r => Envelope.Error r
  | None => None
  end.

(** ** More example data *)

Module Cases.

Definition thinking_delta (idx : Z) (thinking : string) : Event.t :=
  Event.mk ContentBlockDeltaEvent None None (Some idx) None
    (Some (Delta.mk "thinking_delta" "" "" thinking "")) None.

Definition message_delta (reason : string) : Event.t :=
  Event.mk MessageDeltaEvent None (Some reason) None None None (Some (Usage.mk 5 2)).

(** A stream with [pending] to read, in front of the end of the input. *)
Definition reading (pending : string) : MessageStream.t :=
  NewMessageStream (Reader.mk pending EOF).

(** A stream that has accumulated [blocks], with [buf] as the JSON buffer
    of index 0. *)
Definition buffered (blocks : list ContentBlock.t) (buf : string) : MessageStream.t :=
  MessageStream.mk (Reader.mk "" EOF) None None (set_Content Message.zero blocks)
    (<[0 := buf]> ∅).

(** The lines of the scenario, each behind the prefix. *)
Definition data_lines : list string := map (String.append "data: ") Example.scenario.

(** The events of the scenario and the state they are folded into; the
    state after the first three of them. *)
Definition scenario_events : list Event.t :=
  default [] (mapM Json.Unmarshal_Event Example.scenario).

Definition folded (events : list Event.t) : MessageStream.t :=
  match @updateMessages encoding_json (NewMessageStream (Reader.mk "" EOF)) events with
  | Done s => s
  | _ => NewMessageStream (Reader.mk "" EOF)
  end.

Definition scenario_end : MessageStream.t := folded scenario_events.

Definition prefix_end : MessageStream.t := folded (take 3 scenario_events).

(** An error text for the documents that do not decode. *)
Definition no_text (data : string) : string := "invalid character".

End Cases.

(** * Properties *)

(** ** Indexing and growth *)

Lemma index_get_Done {A} (l : list A) (i : Z) (a : A) :
  index_get l i = Done a ↔ 0 ≤ i ∧ l !! Z.to_nat i = Some a.
Proof.
  unfold index_get. case_decide; [|split; [done|lia]].
  destruct (l !! Z.to_nat i) eqn:E; split; try naive_solver.
Qed.

Lemma index_set_Done {A} (l : list A) (i : Z) (a : A) (l' : list A) :
  index_set l i a = Done l' ↔
  0 ≤ i < Z.of_nat (length l) ∧ l' = <[Z.to_nat i := a]> l.
Proof. unfold index_set. case_decide; naive_solver. Qed.

Lemma grow_fuel (fuel : nat) (content : list ContentBlock.t) (idx : Z) :
  idx + 1 - Z.of_nat (length content) ≤ Z.of_nat fuel →
  grow fuel content idx =
  content ++ replicate (Z.to_nat (idx + 1 - Z.of_nat (length content))) ContentBlock.zero.
Proof.
  revert content. induction fuel as [|fuel IH]; intros content Hfuel; simpl.
  - replace (Z.to_nat _) with 0%nat by lia. by rewrite app_nil_r.
  - case_decide as Hlen.
    + rewrite IH by (rewrite length_app; simpl; lia).
      rewrite length_app. simpl.
      replace (Z.to_nat (idx + 1 - Z.of_nat (length content)))
        with (S (Z.to_nat (idx + 1 - Z.of_nat (length content + 1)))) by lia.
      simpl. by rewrite <- app_assoc.
    + replace (Z.to_nat _) with 0%nat by lia. by rewrite app_nil_r.
Qed.

(** The loop of [ContentBlockStartEvent] appends just the placeholders that
    are missing up to [idx]. *)
Lemma grow_replicate (content : list ContentBlock.t) (idx : Z) :
  grow (Z.to_nat (idx + 1)) content idx =
  content ++ replicate (Z.to_nat (idx + 1 - Z.of_nat (length content))) ContentBlock.zero.
Proof. apply grow_fuel. lia. Qed.

Lemma grow_length (content : list ContentBlock.t) (idx : Z) :
  Z.of_nat (length (grow (Z.to_nat (idx + 1)) content idx)) =
  Z.max (Z.of_nat (length content)) (idx + 1).
Proof. rewrite grow_replicate, length_app, length_replicate. lia. Qed.

Lemma grow_lookup (content : list ContentBlock.t) (idx : Z) (j : nat) :
  grow (Z.to_nat (idx + 1)) content idx !! j =
  if decide (j < length content)%nat then content !! j
  else if decide (Z.of_nat j ≤ idx) then Some ContentBlock.zero else None.
Proof.
  rewrite grow_replicate. case_decide as Hj.
  - by rewrite lookup_app_l.
  - rewrite lookup_app_r by lia. case_decide.
    + rewrite lookup_replicate_2; [done|lia].
    + apply lookup_replicate_None. lia.
Qed.

(** ** One event, seen from one position *)

(** The event kinds as the strings they are. *)
Ltac kinds := unfold MessageStartEvent, ContentBlockStartEvent, ContentBlockDeltaEvent,
  ContentBlockStopEvent, MessageDeltaEvent, MessageStopEvent in *.

Section Assembler.
Context `{Unmarshal}.

Lemma eta_ToolUseContent b tu :
  ContentBlock.ToolUseContent b = Some tu → set_ToolUseContent b (Some tu) = b.
Proof. destruct b; simpl; by intros ->. Qed.

Lemma parse_input_step s idx b tu str s' :
  parse_input s idx b tu str = Done s' →
  content s !! Z.to_nat idx = Some b → ContentBlock.ToolUseContent b = Some tu →
  content s' = <[Z.to_nat idx := set_ToolUseContent b (Some (parsed tu str))]> (content s)
  ∧ MessageStream.jsonBuffers s' = MessageStream.jsonBuffers s.
Proof.
  unfold parse_input, parsed. intros Hp Hb Htu.
  destruct (HasPrefix str "{" && HasSuffix str "}").
  - destruct (json_Unmarshal_map str).
    + destruct (index_set _ _ _) eqn:E; simplify_eq/=.
      apply index_set_Done in E as [? ->]. done.
    + simplify_eq. rewrite eta_ToolUseContent by done. by rewrite list_insert_id.
  - simplify_eq. rewrite eta_ToolUseContent by done. by rewrite list_insert_id.
Qed.


Lemma grow_default (l : list ContentBlock.t) (idx : Z) (j : nat) :
  default ContentBlock.zero (grow (Z.to_nat (idx + 1)) l idx !! j) =
  default ContentBlock.zero (l !! j).
Proof.
  rewrite grow_lookup. repeat case_decide; try done.
  - rewrite lookup_ge_None_2; [done|lia].
  - rewrite lookup_ge_None_2; [done|lia].
Qed.

Lemma insert_default (l : list ContentBlock.t) (i j : nat) (b : ContentBlock.t) :
  (i < length l)%nat →
  default ContentBlock.zero (<[i := b]> l !! j) =
  if decide (i = j) then b else default ContentBlock.zero (l !! j).
Proof.
  intros Hi. case_decide; subst.
  - by rewrite list_lookup_insert_eq.
  - by rewrite list_lookup_insert_ne.
Qed.

Lemma buffer_written s s' (idx : Z) (str : string) (k : Z) :
  MessageStream.jsonBuffers s' =
  MessageStream.jsonBuffers (set_jsonBuffers s (<[idx := str]> (MessageStream.jsonBuffers s))) →
  buffer s' k = if decide (idx = k) then str else buffer s k.
Proof.
  unfold buffer. intros ->. simpl. rewrite lookup_insert. by case_decide.
Qed.

Lemma start_step s e s' j :
  Event.Type_ e = ContentBlockStartEvent →
  updateMessage s e = Done s' →
  (block_at s' j, buffer s' (Z.of_nat j)) = step e j (block_at s j, buffer s (Z.of_nat j)).
Proof.
  intros Hk. unfold updateMessage, step. rewrite Hk. kinds. simpl.
  destruct (Event.ContentBlock e) as [cb|], (Event.Index e) as [idx|];
    try (intros [= <-]; by repeat case_decide).
  change (Message.Content (MessageStream.message s)) with (content s).
  destruct (index_set _ _ _) as [c| |] eqn:E; try done. simpl.
  apply index_set_Done in E as [Hidx ->].
  assert (Hd : ∀ s0, content s0 = <[Z.to_nat idx:=cb]> (grow (Z.to_nat (idx + 1)) (content s) idx) →
     block_at s0 j = if decide (Some idx = Some (Z.of_nat j)) then cb else block_at s j).
  { intros s0 Hs0. unfold block_at. rewrite Hs0, insert_default by lia.
    rewrite grow_default. destruct (decide (idx = Z.of_nat j)) as [->|Hne].
    - rewrite !decide_True by (done || lia). done.
    - rewrite !decide_False by (congruence || lia). done. }
  destruct (ContentBlock.ToolUseContent cb); intros [= <-].
  - rewrite Hd by reflexivity. unfold buffer. simpl. rewrite lookup_insert.
    repeat case_decide; simplify_eq; done.
  - rewrite Hd by reflexivity. repeat case_decide; simplify_eq; done.
Qed.


Lemma bind_get_Done {B} s idx (f : ContentBlock.t → outcome B) r :
  index_get (content s) idx ≫= f = Done r →
  ∃ b, 0 ≤ idx ∧ content s !! Z.to_nat idx = Some b ∧ f b = Done r.
Proof.
  destruct (index_get _ _) as [b| |] eqn:E; try done.
  apply index_get_Done in E as [? ?]. eauto.
Qed.

Lemma bind_set_Done s idx b' s' :
  index_set (content s) idx b' ≫= (λ c, Done (set_message_Content s c)) = Done s' →
  0 ≤ idx < Z.of_nat (length (content s)) ∧
  content s' = <[Z.to_nat idx := b']> (content s) ∧
  MessageStream.jsonBuffers s' = MessageStream.jsonBuffers s.
Proof.
  destruct (index_set _ _ _) as [c| |] eqn:E; try done.
  apply index_set_Done in E as [? ->]. by intros [= <-].
Qed.

(** The view of position [j] once the block at [idx] has been replaced. *)
Lemma view_replaced s s' idx b b' j :
  0 ≤ idx → content s !! Z.to_nat idx = Some b →
  content s' = <[Z.to_nat idx := b']> (content s) →
  block_at s' j = if decide (Some idx = Some (Z.of_nat j)) then b' else block_at s j.
Proof.
  intros Hidx Hb Hc. unfold block_at. rewrite Hc.
  rewrite insert_default by (by eapply lookup_lt_Some).
  destruct (decide (idx = Z.of_nat j)) as [->|Hne].
  - rewrite !decide_True by (done || lia). done.
  - rewrite !decide_False by (congruence || lia). done.
Qed.

Lemma view_here s idx b j :
  0 ≤ idx → content s !! Z.to_nat idx = Some b → Some idx = Some (Z.of_nat j) →
  block_at s j = b.
Proof.
  intros Hidx Hb [= ->]. unfold block_at. rewrite Nat2Z.id in Hb. by rewrite Hb.
Qed.


Lemma delta_step s e s' j :
  Event.Type_ e = ContentBlockDeltaEvent →
  updateMessage s e = Done s' →
  (block_at s' j, buffer s' (Z.of_nat j)) = step e j (block_at s j, buffer s (Z.of_nat j)).
Proof.
  intros Hk. unfold updateMessage, step. rewrite Hk. kinds. simpl.
  destruct (Event.Delta e) as [delta|], (Event.Index e) as [idx|];
    try (intros [= <-]; by repeat case_decide).
  change (Message.Content (MessageStream.message s)) with (content s).
  unfold step_delta.
  case_decide as Hlt.
  - destruct (decide (Delta.Type_ delta = "text_delta")) as [_|_];
      [|destruct (decide (Delta.Type_ delta = "input_json_delta")) as [_|_];
        [|destruct (decide (Delta.Type_ delta = "thinking_delta")) as [_|_];
          [|destruct (decide (Delta.Type_ delta = "signature_delta")) as [_|_]]]].
    + intros (b & Hidx & Hb & Hf)%bind_get_Done.
      destruct (ContentBlock.TextContent b) as [tb|] eqn:Etb.
      * apply bind_set_Done in Hf as (_ & Hc & Hbuf).
        rewrite (view_replaced _ _ _ _ _ _ Hidx Hb Hc). unfold buffer. rewrite Hbuf.
        case_decide as Hj; [|done]. rewrite (view_here _ _ _ _ Hidx Hb Hj), Etb. done.
      * injection Hf as <-. case_decide as Hj; [|done].
        rewrite (view_here _ _ _ _ Hidx Hb Hj), Etb. done.
    + intros (b & Hidx & Hb & Hf)%bind_get_Done.
      destruct (ContentBlock.ToolUseContent b) as [tu|] eqn:Etu.
      * apply parse_input_step in Hf as [Hc Hbuf]; [|done..].
        rewrite (view_replaced _ _ _ _ _ _ Hidx Hb Hc).
        rewrite (buffer_written s s' idx _ (Z.of_nat j) Hbuf).
        rewrite (buffer_written s _ idx _ idx eq_refl), (decide_True (P := idx = idx)) by done.
        destruct (decide (idx = Z.of_nat j)) as [->|Hne].
        -- rewrite !decide_True by done.
           rewrite (view_here _ _ _ _ Hidx Hb eq_refl), Etu. done.
        -- rewrite !decide_False by congruence. done.
      * injection Hf as <-. case_decide as Hj; [|done].
        rewrite (view_here _ _ _ _ Hidx Hb Hj), Etu. done.
    + intros (b & Hidx & Hb & Hf)%bind_get_Done.
      destruct (ContentBlock.ThinkingContent b) as [th|] eqn:Eth.
      * apply bind_set_Done in Hf as (_ & Hc & Hbuf).
        rewrite (view_replaced _ _ _ _ _ _ Hidx Hb Hc). unfold buffer. rewrite Hbuf.
        case_decide as Hj; [|done]. rewrite (view_here _ _ _ _ Hidx Hb Hj), Eth. done.
      * injection Hf as <-. case_decide as Hj; [|done].
        rewrite (view_here _ _ _ _ Hidx Hb Hj), Eth. done.
    + intros (b & Hidx & Hb & Hf)%bind_get_Done.
      destruct (ContentBlock.ThinkingContent b) as [th|] eqn:Eth.
      * apply bind_set_Done in Hf as (_ & Hc & Hbuf).
        rewrite (view_replaced _ _ _ _ _ _ Hidx Hb Hc). unfold buffer. rewrite Hbuf.
        case_decide as Hj; [|done]. rewrite (view_here _ _ _ _ Hidx Hb Hj), Eth. done.
      * injection Hf as <-. case_decide as Hj; [|done].
        rewrite (view_here _ _ _ _ Hidx Hb Hj), Eth. done.
    + intros [= <-]. by case_decide.
  - intros [= <-]. case_decide as Hj; [|done]. simplify_eq.
    unfold block_at. rewrite lookup_ge_None_2 by lia. simpl. by repeat case_decide.
Qed.

Lemma stop_step s e s' j :
  Event.Type_ e = ContentBlockStopEvent →
  updateMessage s e = Done s' →
  (block_at s' j, buffer s' (Z.of_nat j)) = step e j (block_at s j, buffer s (Z.of_nat j)).
Proof.
  intros Hk. unfold updateMessage, step. rewrite Hk. kinds. simpl.
  destruct (Event.Index e) as [idx|]; [|intros [= <-]; by repeat case_decide].
  change (Message.Content (MessageStream.message s)) with (content s).
  case_decide as Hlt.
  - intros (b & Hidx & Hb & Hf)%bind_get_Done.
    destruct (ContentBlock.ToolUseContent b) as [tu|] eqn:Etu.
    + apply parse_input_step in Hf as [Hc Hbuf]; [|done..].
      rewrite (view_replaced _ _ _ _ _ _ Hidx Hb Hc).
      replace (buffer s' (Z.of_nat j)) with (buffer s (Z.of_nat j))
        by (unfold buffer; by rewrite Hbuf).
      case_decide as Hj; [|done]. rewrite (view_here _ _ _ _ Hidx Hb Hj), Etu.
      by simplify_eq.
    + injection Hf as <-. case_decide as Hj; [|done].
      rewrite (view_here _ _ _ _ Hidx Hb Hj), Etu. done.
  - intros [= <-]. case_decide as Hj; [|done]. simplify_eq.
    unfold block_at. rewrite lookup_ge_None_2 by lia. done.
Qed.

Lemma updateMessage_step s e s' j :
  updateMessage s e = Done s' →
  (block_at s' j, buffer s' (Z.of_nat j)) = step e j (block_at s j, buffer s (Z.of_nat j)).
Proof.
  destruct (decide (Event.Type_ e = ContentBlockStartEvent)) as [?|Hs]; [by apply start_step|].
  destruct (decide (Event.Type_ e = ContentBlockDeltaEvent)) as [?|Hd]; [by apply delta_step|].
  destruct (decide (Event.Type_ e = ContentBlockStopEvent)) as [?|Hp]; [by apply stop_step|].
  unfold updateMessage, step. rewrite !(decide_False _ _ Hs), !(decide_False _ _ Hd), !(decide_False _ _ Hp).
  repeat case_decide; repeat case_match; by intros [= <-].
Qed.

Lemma parse_input_length s idx b tu str s' :
  parse_input s idx b tu str = Done s' →
  length (content s') = length (content s).
Proof.
  unfold parse_input. repeat case_match; try by intros [= <-].
  intros (_ & -> & _)%bind_set_Done. by rewrite length_insert.
Qed.

Lemma updateMessage_length s e s' :
  updateMessage s e = Done s' →
  Z.of_nat (length (content s')) = grown e (Z.of_nat (length (content s))).
Proof.
  unfold updateMessage, grown. kinds.
  change (Message.Content (MessageStream.message s)) with (content s).
  destruct (decide (Event.Type_ e = "message_start")) as [Hk|_].
  { rewrite decide_False by (rewrite Hk; discriminate).
    case_match; by intros [= <-]. }
  destruct (decide (Event.Type_ e = "content_block_start")) as [_|_].
  { destruct (Event.ContentBlock e) as [cb|], (Event.Index e) as [idx|];
      try by intros [= <-].
    destruct (index_set _ _ _) as [c| |] eqn:E; try done.
    apply index_set_Done in E as [_ ->]. simpl.
    case_match; intros [= <-]; unfold content; simpl;
      by rewrite length_insert, grow_length. }
  destruct (decide (Event.Type_ e = "content_block_delta")) as [_|_].
  { repeat case_match; try (by intros [= <-]);
      intros (b & _ & _ & Hf)%bind_get_Done; revert Hf;
      repeat case_match; try (by intros [= <-]).
    all: try (intros (_ & -> & _)%bind_set_Done; by rewrite length_insert).
    intros ->%parse_input_length. done. }
  destruct (decide (Event.Type_ e = "content_block_stop")) as [_|_].
  { repeat case_match; try (by intros [= <-]).
    intros (b & _ & _ & Hf)%bind_get_Done; revert Hf.
    case_match; try (by intros [= <-]). by intros ->%parse_input_length. }
  repeat case_match; by intros [= <-].
Qed.

(** The assembler leaves the reader, the current event and the error alone. *)
Lemma parse_input_rest s idx b tu str s' :
  parse_input s idx b tu str = Done s' →
  MessageStream.reader s' = MessageStream.reader s ∧
  MessageStream.currentEvent s' = MessageStream.currentEvent s ∧
  MessageStream.err s' = MessageStream.err s.
Proof.
  unfold parse_input. repeat case_match; try by intros [= <-].
  destruct (index_set _ _ _); by intros [= <-].
Qed.

Lemma updateMessage_rest s e s' :
  updateMessage s e = Done s' →
  MessageStream.reader s' = MessageStream.reader s ∧
  MessageStream.currentEvent s' = MessageStream.currentEvent s ∧
  MessageStream.err s' = MessageStream.err s.
Proof.
  unfold updateMessage.
  repeat case_match; try (by intros [= <-]).
  all: try (destruct (index_set _ _ _); by intros [= <-]).
  all: try (destruct (index_get _ _); simpl; try done; repeat case_match;
            try (by intros [= <-]);
            try (destruct (index_set _ _ _); by intros [= <-])).
  all: try by intros ?%parse_input_rest.
Qed.

(** With zero-based indices the assembler does not panic. *)
Lemma parse_input_Done s idx b tu str :
  0 ≤ idx < Z.of_nat (length (content s)) →
  ∃ s', parse_input s idx b tu str = Done s'.
Proof.
  intros Hidx. unfold parse_input. repeat case_match; eauto.
  unfold index_set. fold (content s). rewrite decide_True by done. simpl. eauto.
Qed.

Lemma updateMessage_Done s e :
  (∀ idx, Event.Index e = Some idx → 0 ≤ idx) →
  ∃ s', updateMessage s e = Done s'.
Proof.
  intros Hnn. unfold updateMessage.
  change (Message.Content (MessageStream.message s)) with (content s).
  repeat case_decide; repeat case_match; eauto;
    match goal with Hi : Event.Index _ = Some ?z |- _ =>
      assert (0 ≤ z) by (by apply Hnn) end.
  1,2: unfold index_set; rewrite decide_True by (rewrite grow_length; lia);
       simpl; eauto.
  all: unfold index_get; rewrite decide_True by done;
       match goal with |- context [content _ !! ?n] =>
         destruct (content s !! n) eqn:E; [|apply lookup_ge_None in E; lia] end;
       simpl; repeat case_match; eauto;
       try (unfold index_set; rewrite decide_True by lia; simpl; eauto);
       apply parse_input_Done; unfold content in *; simpl; lia.
Qed.

Lemma updateMessages_steps evs s s' j :
  updateMessages s evs = Done s' →
  (block_at s' j, buffer s' (Z.of_nat j)) =
  steps evs j (block_at s j, buffer s (Z.of_nat j)).
Proof.
  revert s. induction evs as [|e evs IH]; intros s; simpl.
  - by intros [= <-].
  - destruct (updateMessage s e) as [s1| |] eqn:E; try done. simpl.
    intros Hrun. rewrite (IH _ Hrun). unfold steps. simpl.
    by rewrite (updateMessage_step _ _ _ j E).
Qed.

Lemma updateMessages_Done evs s :
  (∀ e idx, e ∈ evs → Event.Index e = Some idx → 0 ≤ idx) →
  ∃ s', updateMessages s evs = Done s'.
Proof.
  revert s. induction evs as [|e evs IH]; intros s Hnn; simpl; [eauto|].
  destruct (updateMessage_Done s e) as [s1 ->].
  { intros idx. apply Hnn. left. }
  simpl. apply IH. intros e' idx He'. apply Hnn. by right.
Qed.

Lemma grown_le e len : len ≤ grown e len.
Proof. unfold grown. repeat case_match; lia. Qed.

Lemma updateMessages_length evs s s' :
  updateMessages s evs = Done s' → (length (content s) ≤ length (content s'))%nat.
Proof.
  revert s. induction evs as [|e evs IH]; intros s; simpl.
  - by intros [= <-].
  - destruct (updateMessage s e) as [s1| |] eqn:E; try done. simpl.
    intros ?%IH. apply updateMessage_length in E.
    pose proof (grown_le e (Z.of_nat (length (content s)))). lia.
Qed.

(** A variant that is populated shows that the position is within the
    sequence: beyond it [block_at] reads the placeholder. *)
Lemma block_at_lookup s j :
  block_at s j ≠ ContentBlock.zero → content s !! j = Some (block_at s j).
Proof. unfold block_at. destruct (content s !! j); naive_solver. Qed.

Lemma lookup_block_at s j :
  (j < length (content s))%nat → content s !! j = Some (block_at s j).
Proof.
  intros Hj. unfold block_at. destruct (content s !! j) eqn:E; [done|].
  apply lookup_ge_None in E. lia.
Qed.

(** C10. One event changes at most the block at its own index: the content
    sequence does not get shorter, a block at another position that was
    within the sequence is the same afterwards, and a position that is
    new and is not the event's own holds the empty placeholder. *)
Theorem update_frame s e s' :
  updateMessage s e = Done s' →
  (length (content s) ≤ length (content s'))%nat ∧
  ∀ j, Event.Index e ≠ Some (Z.of_nat j) →
    ((j < length (content s))%nat → content s' !! j = content s !! j) ∧
    ((length (content s) ≤ j < length (content s'))%nat →
       content s' !! j = Some ContentBlock.zero).
Proof.
  intros Hup.
  assert (Hlen : (length (content s) ≤ length (content s'))%nat).
  { apply updateMessage_length in Hup.
    pose proof (grown_le e (Z.of_nat (length (content s)))). lia. }
  split; [done|]. intros j Hj.
  pose proof (updateMessage_step _ _ _ j Hup) as Hv.
  unfold step in Hv. rewrite decide_False in Hv by done. injection Hv as Hb _.
  split; intros Hin.
  - rewrite !lookup_block_at by lia. by rewrite Hb.
  - rewrite lookup_block_at by lia. rewrite Hb. unfold block_at.
    rewrite lookup_ge_None_2 by lia. done.
Qed.

(** *** Strings *)
Lemma append_nil_r (a : string) : a +:+ "" = a.
Proof.
  induction a as [|c a IH]; [done|].
  change (String c (a +:+ "") = String c a). by rewrite IH.
Qed.

Lemma append_assoc (a b c : string) : (a +:+ b) +:+ c = a +:+ b +:+ c.
Proof.
  induction a as [|x a IH]; [done|].
  change (String x ((a +:+ b) +:+ c) = String x (a +:+ b +:+ c)). by rewrite IH.
Qed.

(** *** Events that leave a position alone *)

Lemma quiet_step e j v : quiet j e → step e j v = v.
Proof.
  intros (Hs & Hd & Hp). unfold step, addresses in *.
  repeat case_decide; try done; naive_solver.
Qed.

Lemma quiet_fragment kind fragment e j :
  ¬ addresses ContentBlockDeltaEvent j e → fragment_of kind fragment j e = None.
Proof. intros Hd. unfold fragment_of. by rewrite decide_False. Qed.

Lemma steps_app l1 l2 j v : steps (l1 ++ l2) j v = steps l2 j (steps l1 j v).
Proof. unfold steps. apply foldl_app. Qed.

Lemma steps_cons e l j v : steps (e :: l) j v = steps l j (step e j v).
Proof. done. Qed.

Lemma fragments_app kind fragment j l1 l2 :
  fragments kind fragment j (l1 ++ l2) =
  fragments kind fragment j l1 ++ fragments kind fragment j l2.
Proof. unfold fragments. apply omap_app. Qed.

Lemma fragments_cons kind fragment j e l :
  fragments kind fragment j (e :: l) =
  match fragment_of kind fragment j e with
  | Some x => x :: fragments kind fragment j l
  | None => fragments kind fragment j l
  end.
Proof. done. Qed.

Lemma quiet_steps evs j v : Forall (quiet j) evs → steps evs j v = v.
Proof.
  unfold steps. intros Hq. revert v. induction Hq as [|e evs He _ IH]; intros v; simpl.
  - done.
  - by rewrite quiet_step.
Qed.

Lemma quiet_fragments kind fragment evs j :
  Forall (quiet j) evs → fragments kind fragment j evs = [].
Proof.
  unfold fragments. induction 1 as [|e evs (_ & Hd & _) _ IH]; simpl; [done|].
  by rewrite quiet_fragment.
Qed.

(** *** Phases *)

Lemma phase_step_quiet j p e : quiet j e → phase_step j p e = Some p.
Proof. intros (Hs & Hd & Hp). unfold phase_step. by rewrite !decide_False. Qed.

Lemma phase_step_cases j p e p' :
  phase_step j p e = Some p' →
  (addresses ContentBlockStartEvent j e ∧ p = Unopened ∧ p' = Open) ∨
  (addresses ContentBlockDeltaEvent j e ∧ p = Open ∧ p' = Open) ∨
  (addresses ContentBlockStopEvent j e ∧ p = Open ∧ p' = Closed) ∨
  (quiet j e ∧ p' = p).
Proof.
  unfold phase_step, quiet. repeat case_decide; destruct p; naive_solver.
Qed.

Lemma phase_after_app j p l1 l2 :
  phase_after j p (l1 ++ l2) = phase_after j p l1 ≫= λ p1, phase_after j p1 l2.
Proof.
  revert p. induction l1 as [|e l1 IH]; intros p; simpl; [done|].
  destruct (phase_step j p e); simpl; [apply IH|done].
Qed.

Lemma phase_after_Unopened j evs p :
  phase_after j p evs = Some Unopened → p = Unopened ∧ Forall (quiet j) evs.
Proof.
  revert p. induction evs as [|e evs IH]; intros p; simpl.
  - intros [= ->]. by split.
  - destruct (phase_step j p e) as [p1|] eqn:E; [|done].
    intros [-> Hq]%IH.
    apply phase_step_cases in E as [(_ & _ & [=])|[(_ & _ & [=])|[(_ & _ & [=])|[? ->]]]].
    split; [done|]. by constructor.
Qed.

Lemma phase_after_Closed j evs p :
  phase_after j Closed evs = Some p → p = Closed ∧ Forall (quiet j) evs.
Proof.
  induction evs as [|e evs IH]; simpl.
  - intros [= <-]. by split.
  - destruct (phase_step j Closed e) as [p1|] eqn:E; [|done].
    apply phase_step_cases in E as [(_ & [=] & _)|[(_ & [=] & _)|[(_ & [=] & _)|[? ->]]]].
    intros [-> Hq]%IH. split; [done|]. by constructor.
Qed.

(** A sequence in which index [j] is started splits at the start event:
    what comes before is quiet about [j], what comes after takes the open
    block to its stop. *)
Lemma lifecycle_split evs j e0 :
  lifecycle evs → e0 ∈ evs → addresses ContentBlockStartEvent j e0 →
  ∃ pre post, evs = pre ++ e0 :: post ∧ Forall (quiet j) pre ∧
              phase_after j Open post = Some Closed.
Proof.
  intros [_ Hph] (pre & post & ->)%list_elem_of_split Hst.
  exists pre, post. split; [done|].
  assert (∃ pf, phase_after j Unopened (pre ++ e0 :: post) = Some pf) as [pf Hpf].
  { destruct (Hph j); eauto. }
  rewrite phase_after_app in Hpf.
  destruct (phase_after j Unopened pre) as [p1|] eqn:Epre; [|done]. simpl in Hpf.
  destruct (phase_step j p1 e0) as [p2|] eqn:E0; [|done].
  apply phase_step_cases in E0 as [E|[E|[E|E]]].
  - destruct E as (_ & -> & ->).
    pose proof (phase_after_Unopened _ _ _ Epre) as [_ Hq].
    split; [done|].
    destruct (Hph j) as [Hj|Hj]; rewrite phase_after_app, Epre in Hj; simpl in Hj;
      unfold phase_step in Hj; rewrite decide_True in Hj by done.
    + by apply phase_after_Unopened in Hj as [? _].
    + done.
  - destruct Hst as [Hty _], E as ([Hty' _] & _). rewrite Hty in Hty'. done.
  - destruct Hst as [Hty _], E as ([Hty' _] & _). rewrite Hty in Hty'. done.
  - destruct E as [(Hn & _) _]. done.
Qed.

(** *** The text of a block *)

Lemma step_text e j v tb :
  ¬ addresses ContentBlockStartEvent j e →
  ContentBlock.TextContent (fst v) = Some tb →
  ∃ tb', ContentBlock.TextContent (fst (step e j v)) = Some tb' ∧
         TextBlock.Text tb' =
         TextBlock.Text tb +:+ default "" (fragment_of "text_delta" Delta.Text j e).
Proof.
  intros Hs Htb. destruct v as [b buf]. simpl in Htb.
  unfold step, fragment_of, addresses in *. kinds.
  destruct (decide (Event.Index e = Some (Z.of_nat j))) as [Hi|Hi].
  2: { rewrite decide_False by (by intros [_ ?]). exists tb. by rewrite append_nil_r. }
  destruct (decide (Event.Type_ e = "content_block_start")) as [Hk|_];
    [exfalso; by apply Hs|].
  destruct (decide (Event.Type_ e = "content_block_delta")) as [Hk|Hk].
  - rewrite decide_True by done.
    destruct (Event.Delta e) as [d|]; [|exists tb; by rewrite append_nil_r].
    unfold step_delta.
    destruct (decide (Delta.Type_ d = "text_delta")) as [Hd|Hd].
    { rewrite Htb. simpl. eauto. }
    repeat case_decide; repeat case_match; simpl; exists tb;
      by rewrite append_nil_r.
  - rewrite (decide_False (P := _ ∧ _)) by (by intros [? _]).
    repeat case_decide; repeat case_match; simpl; exists tb; by rewrite append_nil_r.
Qed.

Lemma steps_text post j : ∀ v tb p pf,
  p ≠ Unopened → phase_after j p post = Some pf →
  ContentBlock.TextContent (fst v) = Some tb →
  ∃ tb', ContentBlock.TextContent (fst (steps post j v)) = Some tb' ∧
         TextBlock.Text tb' =
         TextBlock.Text tb +:+
         concat_strings (fragments "text_delta" Delta.Text j post).
Proof.
  induction post as [|e post IH]; intros v tb p pf Hp Hph Htb.
  - exists tb. split; [done|]. symmetry. apply append_nil_r.
  - rewrite steps_cons. simpl in Hph. destruct (phase_step j p e) as [p1|] eqn:E; [|done].
    assert (¬ addresses ContentBlockStartEvent j e ∧ p1 ≠ Unopened) as [Hns Hp1].
    { apply phase_step_cases in E as [E|[E|[E|E]]]; [naive_solver|..].
      - destruct E as ([Hty _] & _ & ->). split; [|done]. intros [Hty' _].
        rewrite Hty in Hty'. done.
      - destruct E as ([Hty _] & _ & ->). split; [|done]. intros [Hty' _].
        rewrite Hty in Hty'. done.
      - destruct E as [(? & _) ->]. done. }
    destruct (step_text e j v tb Hns Htb) as (tb1 & Htb1 & Htxt1).
    destruct (IH (step e j v) tb1 p1 pf Hp1 Hph Htb1) as (tb' & Htb' & Htxt').
    exists tb'. split; [done|]. rewrite Htxt', Htxt1, append_assoc. f_equal.
    rewrite fragments_cons. by destruct (fragment_of _ _ _ e).
Qed.

(** C2. In a sequence of events in which every index goes through start,
    deltas and stop, a text block that is started at [j] with an empty text
    ends with the concatenation of the text fragments of the [text_delta]
    events of [j], in event order. *)
Theorem text_is_concatenation r evs j e0 cb tb :
  lifecycle evs →
  e0 ∈ evs → addresses ContentBlockStartEvent j e0 →
  Event.ContentBlock e0 = Some cb →
  ContentBlock.TextContent cb = Some tb → TextBlock.Text tb = "" →
  ∃ s' b tb',
    updateMessages (NewMessageStream r) evs = Done s' ∧
    content s' !! j = Some b ∧
    ContentBlock.TextContent b = Some tb' ∧
    TextBlock.Text tb' = concat_strings (fragments "text_delta" Delta.Text j evs).
Proof.
  intros Hlife He0 Hst Hcb Htb Hempty.
  destruct (updateMessages_Done evs (NewMessageStream r) (proj1 Hlife)) as [s' Hrun].
  destruct (lifecycle_split evs j e0 Hlife He0 Hst) as (pre & post & -> & Hq & Hph).
  pose proof (updateMessages_steps _ _ _ j Hrun) as Hv.
  rewrite steps_app, (quiet_steps _ _ _ Hq), steps_cons in Hv.
  assert (Hstep : (step e0 j (block_at (NewMessageStream r) j,
                      buffer (NewMessageStream r) (Z.of_nat j))).1 = cb).
  { unfold step. destruct Hst as [Hty Hidx].
    rewrite decide_True by done. rewrite decide_True by done. by rewrite Hcb. }
  destruct (steps_text post j _ tb Open Closed ltac:(done) Hph
              (eq_trans (f_equal ContentBlock.TextContent Hstep) Htb))
    as (tb' & Htb' & Htxt).
  rewrite <- Hv in Htb'. simpl in Htb'.
  exists s', (block_at s' j), tb'. split; [done|]. split; [|split; [done|]].
  - apply block_at_lookup. intros Hz. by rewrite Hz in Htb'.
  - rewrite Htxt, Hempty, fragments_app, fragments_cons. simpl.
    rewrite (quiet_fragments _ _ _ _ Hq). simpl.
    rewrite quiet_fragment; [done|]. destruct Hst as [Hty _]. intros [Hty' _].
    rewrite Hty in Hty'. done.
Qed.

(** *** The input of a tool-use block *)

Lemma not_both_kinds k1 k2 j e :
  k1 ≠ k2 → addresses k1 j e → ¬ addresses k2 j e.
Proof. intros Hne [Hty _] [Hty' _]. congruence. Qed.

Lemma start_not_delta j e :
  addresses ContentBlockStartEvent j e → ¬ addresses ContentBlockDeltaEvent j e.
Proof. by apply not_both_kinds. Qed.

Lemma delta_not_start j e :
  addresses ContentBlockDeltaEvent j e → ¬ addresses ContentBlockStartEvent j e.
Proof. by apply not_both_kinds. Qed.

Lemma delta_not_stop j e :
  addresses ContentBlockDeltaEvent j e → ¬ addresses ContentBlockStopEvent j e.
Proof. by apply not_both_kinds. Qed.

Lemma stop_not_delta j e :
  addresses ContentBlockStopEvent j e → ¬ addresses ContentBlockDeltaEvent j e.
Proof. by apply not_both_kinds. Qed.

Lemma stop_not_start j e :
  addresses ContentBlockStopEvent j e → ¬ addresses ContentBlockStartEvent j e.
Proof. by apply not_both_kinds. Qed.

Lemma step_tool e j v tu :
  ¬ addresses ContentBlockStartEvent j e →
  ¬ addresses ContentBlockStopEvent j e →
  ContentBlock.ToolUseContent (fst v) = Some tu →
  ∃ tu', ContentBlock.ToolUseContent (fst (step e j v)) = Some tu' ∧
         snd (step e j v) =
         snd v +:+
         default "" (fragment_of "input_json_delta" Delta.PartialJSON j e).
Proof.
  intros Hs Hp Htu. destruct v as [b buf]. simpl in Htu.
  unfold step, fragment_of, addresses in *. kinds.
  destruct (decide (Event.Index e = Some (Z.of_nat j))) as [Hi|Hi].
  2: { rewrite decide_False by (by intros [_ ?]). exists tu. by rewrite append_nil_r. }
  destruct (decide (Event.Type_ e = "content_block_start")) as [Hk|_];
    [exfalso; by apply Hs|].
  destruct (decide (Event.Type_ e = "content_block_delta")) as [Hk|Hk].
  - rewrite decide_True by done.
    destruct (Event.Delta e) as [d|]; [|exists tu; by rewrite append_nil_r].
    unfold step_delta.
    destruct (decide (Delta.Type_ d = "text_delta")) as [Hd|Hd].
    { rewrite decide_False by (rewrite Hd; discriminate).
      case_match; simpl; exists tu; by rewrite append_nil_r. }
    destruct (decide (Delta.Type_ d = "input_json_delta")) as [Hd'|Hd'].
    { rewrite Htu. simpl. eauto. }
    repeat case_decide; repeat case_match; simpl; exists tu;
      by rewrite append_nil_r.
  - rewrite (decide_False (P := _ ∧ _)) by (by intros [? _]).
    destruct (decide (Event.Type_ e = "content_block_stop")) as [Hk'|_];
      [exfalso; by apply Hp|].
    simpl. exists tu. by rewrite append_nil_r.
Qed.

Lemma step_stop e j v tu :
  addresses ContentBlockStopEvent j e →
  ContentBlock.ToolUseContent (fst v) = Some tu →
  step e j v = (set_ToolUseContent (fst v) (Some (parsed tu (snd v))), snd v).
Proof.
  intros [Hty Hidx] Htu. unfold step. rewrite decide_True by done.
  rewrite Hty. kinds. rewrite !decide_False by discriminate.
  rewrite decide_True by done. by rewrite Htu.
Qed.

Lemma steps_tool post j o : ∀ v tu,
  phase_after j Open post = Some Closed →
  ContentBlock.ToolUseContent (fst v) = Some tu →
  let payload :=
    snd v +:+ concat_strings (fragments "input_json_delta" Delta.PartialJSON j post) in
  HasPrefix payload "{" = true → HasSuffix payload "}" = true →
  json_Unmarshal_map payload = Some o →
  ∃ tu', ContentBlock.ToolUseContent (fst (steps post j v)) = Some tu' ∧
         ToolUseBlock.Input tu' = o.
Proof.
  induction post as [|e post IH]; intros v tu Hph Htu payload Hpre Hsuf Hun; [done|].
  rewrite steps_cons. simpl in Hph.
  destruct (phase_step j Open e) as [p1|] eqn:E; [|done].
  subst payload. rewrite fragments_cons in Hpre, Hsuf, Hun.
  apply phase_step_cases in E as [(_ & [=] & _)|[(Hd & _ & ->)|[(Hp & _ & ->)|[Hq ->]]]].
  - destruct (step_tool e j v tu) as (tu1 & Htu1 & Hbuf);
      [by apply delta_not_start|by apply delta_not_stop|done|].
    apply (IH _ tu1 Hph Htu1); rewrite Hbuf, append_assoc;
      by destruct (fragment_of _ _ _ e).
  - apply phase_after_Closed in Hph as [_ Hq].
    rewrite (quiet_steps _ _ _ Hq), (step_stop _ _ _ tu Hp Htu). simpl.
    rewrite quiet_fragment in Hpre, Hsuf, Hun by (by apply stop_not_delta).
    rewrite (quiet_fragments _ _ _ _ Hq) in Hpre, Hsuf, Hun. simpl in *.
    rewrite append_nil_r in Hpre, Hsuf, Hun.
    eexists. split; [done|]. unfold parsed. by rewrite Hpre, Hsuf, Hun.
  - rewrite (quiet_step _ _ _ Hq).
    rewrite quiet_fragment in Hpre, Hsuf, Hun by apply Hq.
    by apply (IH _ tu Hph Htu).
Qed.

(** C1, as amended. In a sequence of events in which every index goes
    through start, deltas and stop, let [payload] be the concatenation of
    the [input_json_delta] fragments of a tool-use block started at [j].
    When [payload] starts with an opening brace, ends with a closing brace
    and decodes to the object [o], the input of the block after its stop is
    [o]. The sequence is arbitrary, so this holds for every way of cutting
    [payload] into fragments. *)
Theorem tool_input_is_parsed_payload r evs j e0 cb tu payload o :
  lifecycle evs →
  e0 ∈ evs → addresses ContentBlockStartEvent j e0 →
  Event.ContentBlock e0 = Some cb → ContentBlock.ToolUseContent cb = Some tu →
  payload = concat_strings (fragments "input_json_delta" Delta.PartialJSON j evs) →
  HasPrefix payload "{" = true → HasSuffix payload "}" = true →
  json_Unmarshal_map payload = Some o →
  ∃ s' b tu',
    updateMessages (NewMessageStream r) evs = Done s' ∧
    content s' !! j = Some b ∧
    ContentBlock.ToolUseContent b = Some tu' ∧
    ToolUseBlock.Input tu' = o.
Proof.
  intros Hlife He0 Hst Hcb Htu -> Hpre Hsuf Hun.
  destruct (updateMessages_Done evs (NewMessageStream r) (proj1 Hlife)) as [s' Hrun].
  destruct (lifecycle_split evs j e0 Hlife He0 Hst) as (pre & post & -> & Hq & Hph).
  pose proof (updateMessages_steps _ _ _ j Hrun) as Hv.
  rewrite steps_app, (quiet_steps _ _ _ Hq), steps_cons in Hv.
  rewrite fragments_app, (quiet_fragments _ _ _ _ Hq), fragments_cons in Hpre, Hsuf, Hun.
  rewrite quiet_fragment in Hpre, Hsuf, Hun by (by apply start_not_delta).
  assert (Hstep : step e0 j (block_at (NewMessageStream r) j,
                    buffer (NewMessageStream r) (Z.of_nat j)) = (cb, "")).
  { unfold step. destruct Hst as [Hty Hidx].
    rewrite decide_True by done. rewrite decide_True by done. by rewrite Hcb, Htu. }
  rewrite Hstep in Hv.
  destruct (steps_tool post j o (cb, "") tu Hph Htu Hpre Hsuf Hun) as (tu' & Htu' & Hin).
  rewrite <- Hv in Htu'. simpl in Htu'.
  exists s', (block_at s' j), tu'. split; [done|]. split; [|done].
  apply block_at_lookup. intros Hz. by rewrite Hz in Htu'.
Qed.

(** *** The signature of a reasoning block *)

Lemma step_signature e j v th :
  ¬ addresses ContentBlockStartEvent j e →
  ContentBlock.ThinkingContent (fst v) = Some th →
  ∃ th', ContentBlock.ThinkingContent (fst (step e j v)) = Some th' ∧
         ThinkingBlock.Signature th' =
         default (ThinkingBlock.Signature th)
           (fragment_of "signature_delta" Delta.Signature j e).
Proof.
  intros Hs Hth. destruct v as [b buf]. simpl in Hth.
  unfold step, fragment_of, addresses in *. kinds.
  destruct (decide (Event.Index e = Some (Z.of_nat j))) as [Hi|Hi].
  2: { rewrite decide_False by (by intros [_ ?]). by exists th. }
  destruct (decide (Event.Type_ e = "content_block_start")) as [Hk|_];
    [exfalso; by apply Hs|].
  destruct (decide (Event.Type_ e = "content_block_delta")) as [Hk|Hk].
  - rewrite decide_True by done.
    destruct (Event.Delta e) as [d|]; [|by exists th].
    unfold step_delta.
    destruct (decide (Delta.Type_ d = "signature_delta")) as [Hd|Hd].
    { rewrite !decide_False by (rewrite Hd; discriminate).
      rewrite Hth. simpl. eauto. }
    repeat case_decide; repeat case_match; simpl; try (by exists th).
    simplify_eq. eexists. split; [done|]. done.
  - rewrite (decide_False (P := _ ∧ _)) by (by intros [? _]).
    repeat case_decide; repeat case_match; simpl; by exists th.
Qed.

Lemma steps_signature evs j : ∀ v th,
  Forall (λ e, ¬ addresses ContentBlockStartEvent j e) evs →
  ContentBlock.ThinkingContent (fst v) = Some th →
  ∃ th', ContentBlock.ThinkingContent (fst (steps evs j v)) = Some th' ∧
         ThinkingBlock.Signature th' =
         default (ThinkingBlock.Signature th)
           (last (fragments "signature_delta" Delta.Signature j evs)).
Proof.
  induction evs as [|e evs IH]; intros v th Hns Hth; [by exists th|].
  apply Forall_cons in Hns as [Hne Hns]. rewrite steps_cons, fragments_cons.
  destruct (step_signature e j v th Hne Hth) as (th1 & Hth1 & Hsig1).
  destruct (IH _ th1 Hns Hth1) as (th' & Hth' & Hsig').
  exists th'. split; [done|]. rewrite Hsig', Hsig1.
  destruct (fragment_of _ _ _ e) as [sg|]; simpl; [|done].
  rewrite last_cons. by destruct (last _).
Qed.

(** C6. Events delivered to a reasoning block at [j] (any events with
    zero-based indices that do not start [j] again) leave it with the
    signature of the last [signature_delta] of [j]: the value replaces the
    earlier one, it is not appended to it. *)
Theorem signature_is_last_delta s evs j b th sg :
  content s !! j = Some b → ContentBlock.ThinkingContent b = Some th →
  (∀ e idx, e ∈ evs → Event.Index e = Some idx → 0 ≤ idx) →
  (∀ e, e ∈ evs → ¬ addresses ContentBlockStartEvent j e) →
  last (fragments "signature_delta" Delta.Signature j evs) = Some sg →
  ∃ s' b' th',
    updateMessages s evs = Done s' ∧
    content s' !! j = Some b' ∧
    ContentBlock.ThinkingContent b' = Some th' ∧
    ThinkingBlock.Signature th' = sg.
Proof.
  intros Hb Hth Hnn Hns Hlast.
  destruct (updateMessages_Done evs s Hnn) as [s' Hrun].
  pose proof (updateMessages_steps _ _ _ j Hrun) as Hv.
  assert (Hth0 : ContentBlock.ThinkingContent
                   (block_at s j, buffer s (Z.of_nat j)).1 = Some th).
  { unfold block_at. by rewrite Hb. }
  destruct (steps_signature evs j _ th (proj2 (Forall_forall _ _) Hns) Hth0)
    as (th' & Hth' & Hsig).
  rewrite <- Hv, Hlast in *. simpl in *.
  exists s', (block_at s' j), th'. split; [done|]. split; [|done].
  apply block_at_lookup. intros Hz. by rewrite Hz in Hth'.
Qed.

(** *** Placeholders *)

Lemma step_placeholder e j v :
  ¬ addresses ContentBlockStartEvent j e →
  fst v = ContentBlock.zero → fst (step e j v) = ContentBlock.zero.
Proof.
  intros Hs Hz. destruct v as [b buf]. simpl in Hz. subst b.
  unfold step, addresses in *.
  repeat case_decide; try done; [naive_solver|..].
  - case_match; [|done]. unfold step_delta. by repeat case_decide.
Qed.

Lemma steps_placeholder evs j : ∀ v,
  Forall (λ e, ¬ addresses ContentBlockStartEvent j e) evs →
  fst v = ContentBlock.zero → fst (steps evs j v) = ContentBlock.zero.
Proof.
  induction evs as [|e evs IH]; intros v Hns Hz; [done|].
  apply Forall_cons in Hns as [Hne Hns]. rewrite steps_cons.
  apply IH; [done|]. by apply step_placeholder.
Qed.

(** C7. After any events that start none of the indices 0 to 4, a
    [ContentBlockStart] at index 5 gives a content sequence of length at
    least 6 whose blocks 0 to 4 are empty placeholders and whose block 5 is
    the snapshot of the event. *)
Theorem start_at_index_5 r evs s e cb :
  (∀ ev j, ev ∈ evs → (j < 5)%nat → ¬ addresses ContentBlockStartEvent j ev) →
  updateMessages (NewMessageStream r) evs = Done s →
  Event.Type_ e = ContentBlockStartEvent → Event.Index e = Some 5 →
  Event.ContentBlock e = Some cb →
  ∃ s', updateMessage s e = Done s' ∧
        (6 ≤ length (content s'))%nat ∧
        (∀ j, (j < 5)%nat → content s' !! j = Some ContentBlock.zero) ∧
        content s' !! 5%nat = Some cb.
Proof.
  intros Hns Hrun Hty Hidx Hcb.
  destruct (updateMessage_Done s e) as [s' Hup].
  { intros idx. rewrite Hidx. intros [= <-]. lia. }
  exists s'. split; [done|].
  assert (Hlen : (6 ≤ length (content s'))%nat).
  { apply updateMessage_length in Hup. unfold grown in Hup.
    rewrite decide_True, Hcb, Hidx in Hup by done. lia. }
  split; [done|]. split.
  - intros j Hj. rewrite lookup_block_at by lia. f_equal.
    pose proof (updateMessage_step _ _ _ j Hup) as Hv.
    unfold step in Hv. rewrite decide_False in Hv by (rewrite Hidx; intros [=]; lia).
    injection Hv as -> _.
    pose proof (f_equal fst (updateMessages_steps _ _ _ j Hrun)) as Hv.
    simpl in Hv. rewrite Hv.
    apply steps_placeholder; [|done].
    apply Forall_forall. intros ev Hev. by apply Hns.
  - rewrite lookup_block_at by lia. f_equal.
    pose proof (updateMessage_step _ _ _ 5%nat Hup) as Hv.
    unfold step in Hv. rewrite Hidx, Hty, Hcb in Hv.
    rewrite !decide_True in Hv by done. by injection Hv as -> _.
Qed.

(** C3, as amended. A [ContentBlockDelta] whose index is at or beyond the
    length of the content sequence does not fail and changes nothing: the
    sequence does not grow, the event is dropped. *)
Theorem delta_beyond_length_ignored s e idx :
  Event.Type_ e = ContentBlockDeltaEvent → Event.Index e = Some idx →
  Z.of_nat (length (content s)) ≤ idx →
  updateMessage s e = Done s.
Proof.
  intros Hty Hidx Hlen. unfold updateMessage. rewrite Hty, Hidx. kinds.
  rewrite decide_False by discriminate. rewrite decide_False by discriminate.
  rewrite decide_True by done.
  destruct (Event.Delta e); [|done].
  rewrite decide_False; [done|]. unfold content in Hlen. lia.
Qed.

End Assembler.

(** ** The event decoder *)

Section Decoder.
Context `{Unmarshal}.

Lemma cut_at_length d s line rest :
  cut_at d s = Some (line, rest) → (String.length rest < String.length s)%nat.
Proof.
  revert line. induction s as [|c s IH]; intros line; simpl; [done|].
  destruct (Ascii.eqb c d).
  - intros [= <- <-]. lia.
  - destruct (cut_at d s) as [[l r]|]; [|done]. intros [= <- <-].
    specialize (IH _ eq_refl). lia.
Qed.

Lemma cut_at_line d l rest :
  cut_at d l = None → cut_at d (l +:+ String d rest) = Some (l +:+ String d "", rest).
Proof.
  induction l as [|c l IH]; intros Hl.
  - change (cut_at d (String d rest) = Some (String d "", rest)).
    simpl. by rewrite Ascii.eqb_refl.
  - change (cut_at d (String c (l +:+ String d rest)) =
            Some (String c (l +:+ String d ""), rest)).
    simpl in *. destruct (Ascii.eqb c d); [done|].
    destruct (cut_at d l) as [[? ?]|]; [done|]. by rewrite IH.
Qed.

Lemma updateMessage_fuel s e : updateMessage s e ≠ OutOfFuel.
Proof.
  unfold updateMessage, parse_input, index_get, index_set.
  repeat (case_decide || case_match || simpl in * ); try done.
Qed.

(** [Next] returns: the fuel it gives the loop is never used up. *)
Lemma Next_loop_fuel fuel s :
  (String.length (Reader.pending (MessageStream.reader s)) < fuel)%nat →
  Next_loop fuel s ≠ OutOfFuel.
Proof.
  revert s. induction fuel as [|fuel IH]; intros s Hfuel; [lia|]. simpl.
  destruct (MessageStream.err s); [done|].
  unfold ReadBytes.
  destruct (cut_at _ _) as [[line rest]|] eqn:Ecut.
  - apply cut_at_length in Ecut.
    assert (Hrec : ∀ s0, MessageStream.reader s0 = Reader.mk rest (Reader.final (MessageStream.reader s)) →
                         Next_loop fuel s0 ≠ OutOfFuel).
    { intros s0 Hs0. apply IH. rewrite Hs0. simpl. lia. }
    case_decide; [apply Hrec; reflexivity|].
    destruct (negb _); [apply Hrec; reflexivity|].
    destruct (json_Unmarshal_Event _) as [event|]; [|done].
    match goal with |- context [updateMessage ?a ?b] =>
      pose proof (updateMessage_fuel a b); by destruct (updateMessage a b) end.
  - by destruct (Reader.final _).
Qed.

Lemma Next_returns s : Next s ≠ OutOfFuel.
Proof. apply Next_loop_fuel. lia. Qed.

Lemma Next_after_error s e :
  MessageStream.err s = Some e → Next s = Done (false, s).
Proof. intros He. unfold Next. simpl. by rewrite He. Qed.

Lemma Next_loop_error fuel s b s' e :
  Next_loop fuel s = Done (b, s') → MessageStream.err s' = Some e → b = false.
Proof.
  revert s. induction fuel as [|fuel IH]; intros s; simpl; [done|].
  destruct (MessageStream.err s) eqn:Eerr; [by intros [= <- <-]|].
  unfold ReadBytes.
  destruct (cut_at _ _) as [[line rest]|] eqn:Ecut.
  - case_decide; [apply IH|].
    destruct (negb _); [apply IH|].
    destruct (json_Unmarshal_Event _) as [event|]; [|by intros [= <- <-]].
    destruct (updateMessage _ _) as [s1| |] eqn:Eup; try done. simpl.
    intros [= <- <-] He. apply updateMessage_rest in Eup as (_ & _ & Herr).
    simpl in Herr. congruence.
  - destruct (Reader.final _); by intros [= <- <-].
Qed.

(** C8. When a call of [Next] leaves an error recorded, a transport error or
    a decode error, that call returned [false], and the next call returns
    [false] with the stream as it was: nothing more is read, the message is
    not touched, and [Err] still gives the error. So does every later one. *)
Theorem errors_are_terminal s b s' e :
  Next s = Done (b, s') → Err s' = Some e →
  b = false ∧ ∀ n, Next_times n s' = Done (false, s') ∧ Err s' = Some e.
Proof.
  intros HNext Herr. split; [by eapply Next_loop_error|].
  intros n. split; [|done].
  induction n as [|n IH]; simpl; [by eapply Next_after_error|].
  by rewrite (Next_after_error _ _ Herr).
Qed.

(** C9. When what is left of the input is a last line without a line feed
    and the input then ends, [Next] returns [false], records no error and
    changes nothing but the reader, which has dropped the bytes of that
    line: whatever they were, they are not delivered as an event, not
    folded into the message, and a later call finds nothing to read. *)
Theorem unterminated_final_line_discarded s :
  Err s = None →
  Reader.final (MessageStream.reader s) = EOF →
  unterminated (Reader.pending (MessageStream.reader s)) →
  let s' := set_reader s (Reader.mk "" EOF) in
  Next s = Done (false, s') ∧ Next s' = Done (false, s').
Proof.
  intros Herr Hfinal Hunt s'. unfold Err, unterminated in *.
  split.
  - unfold Next. simpl. rewrite Herr. unfold ReadBytes. rewrite Hunt, Hfinal. done.
  - unfold Next. simpl. by rewrite Herr.
Qed.

End Decoder.

(** ** Life cycles by computation *)

Lemma phase_after_quiet j p evs :
  Forall (quiet j) evs → phase_after j p evs = Some p.
Proof.
  induction 1 as [|e evs Hq _ IH]; simpl; [done|].
  by rewrite phase_step_quiet.
Qed.

Lemma lifecycle_ok_spec evs : lifecycle_ok evs = true → lifecycle evs.
Proof.
  unfold lifecycle_ok, indices. intros [Hnn Hph]%andb_prop.
  rewrite forallb_forall in Hnn, Hph. split.
  - intros e idx He Hidx.
    assert (Hin : idx ∈ omap Event.Index evs) by (apply list_elem_of_omap; eauto).
    apply list_elem_of_In, Hnn in Hin. by apply bool_decide_eq_true in Hin.
  - intros j.
    destruct (decide (Z.of_nat j ∈ omap Event.Index evs)) as [Hin|Hout].
    + apply list_elem_of_In, Hph in Hin. rewrite Nat2Z.id in Hin.
      destruct (phase_after j Unopened evs) as [[| |]|]; naive_solver.
    + left. apply phase_after_quiet, Forall_forall. intros e He.
      assert (Event.Index e ≠ Some (Z.of_nat j)) as Hne.
      { intros Hidx. apply Hout, list_elem_of_omap. eauto. }
      unfold quiet, addresses. naive_solver.
Qed.

(** ** The scenarios, on Go's decoder *)

Import Example.

(** C4, as amended. The six event documents of the scenario, each on a line
    of its own after the prefix [data: ] (the five letters, the colon and a
    space), are delivered as six events, and the stream then ends without
    an error on the message with id m1, the assistant role, one text block
    that reads Hello, the stop reason [end_turn] and a usage of 5 and 2
    tokens. *)
Theorem scenario_with_data_prefix :
  ∃ s, drain (stream_of (map (String.append "data: ") scenario)) = Done (6%nat, s) ∧
       Err s = None ∧ Message s = hello.
Proof. eexists. split; [lazy; reflexivity|]. split; reflexivity. Qed.

(** C4, counterexample. On the lines as the claim writes them, with no
    space after the colon, [Next] skips all six: no event is delivered and
    the message stays empty. *)
Lemma scenario_without_space_counterexample :
  ∃ s, drain (stream_of (map (String.append "data:") scenario)) = Done (0%nat, s) ∧
       Err s = None ∧ Message s = Message.zero ∧ Message s ≠ hello.
Proof. eexists. split; [lazy; reflexivity|]. repeat split; try reflexivity. discriminate. Qed.

(** C5, as amended. When the next line of the input is the prefix [data: ]
    followed by the text [{not json], the call of [Next] returns [false]
    and records the decode error; the reader has read that line only, the
    message and the JSON buffers are what they were, and the next call
    returns [false] again. *)
Theorem malformed_data_line_is_decode_error s rest :
  Err s = None →
  Reader.pending (MessageStream.reader s) = "data: {not json" +:+ newline +:+ rest →
  let s' := set_err
              (set_reader s (Reader.mk rest (Reader.final (MessageStream.reader s))))
              (Some ErrorParsingEvent) in
  Next s = Done (false, s') ∧ Message s' = Message s ∧
  MessageStream.jsonBuffers s' = MessageStream.jsonBuffers s ∧
  Next s' = Done (false, s').
Proof.
  destruct s as [[pending final] current err message buffers].
  unfold Err. simpl. intros -> ->. split; [|done].
  vm_compute. reflexivity.
Qed.

(** C5, witness: the malformed line as the whole input. *)
Lemma malformed_data_line_witness :
  let s := stream_of ["data: {not json"] in
  let s' := set_err (set_reader s (Reader.mk "" EOF)) (Some ErrorParsingEvent) in
  Next s = Done (false, s') ∧ Message s' = Message s ∧
  MessageStream.jsonBuffers s' = MessageStream.jsonBuffers s ∧
  Next s' = Done (false, s').
Proof.
  apply (malformed_data_line_is_decode_error (stream_of ["data: {not json"]) "");
    reflexivity.
Defined.

(** C5, counterexample. The line of the claim has no space after the colon
    and is skipped: with a well-formed line after it [Next] returns [true]
    for that one, and as the last line it is passed over without an
    error. *)
Lemma line_without_space_counterexample :
  ∃ s1 s2,
    Next (stream_of ["data:{not json"; quoted "data: {'type':'message_stop'}"]) = Done (true, s1) ∧
    Err s1 = None ∧
    Next (stream_of ["data:{not json"]) = Done (false, s2) ∧ Err s2 = None.
Proof. do 2 eexists. split; [lazy; reflexivity|]. split; [reflexivity|]. split; [lazy; reflexivity|reflexivity]. Qed.

(** C1, counterexample. An object followed by a space is a JSON text that
    decodes to the object, but it does not end with the closing brace: sent
    as one fragment it is never parsed and the input stays the one of the
    snapshot; with the space as a fragment of its own the block ends with
    the object. *)
Lemma trailing_space_counterexample :
  let payload := quoted "{'a':1} " in
  let r := Reader.mk "" EOF in
  payload = concat_strings [payload] ∧
  payload = concat_strings [quoted "{'a':1}"; " "] ∧
  json_Unmarshal_map payload = Some (JObject [("a", JNumber "1")]) ∧
  input_at 0 (updateMessages (NewMessageStream r) (tool_call [payload])) =
    Some (JObject []) ∧
  input_at 0 (updateMessages (NewMessageStream r) (tool_call [quoted "{'a':1}"; " "])) =
    Some (JObject [("a", JNumber "1")]).
Proof. repeat split; vm_compute; reflexivity. Qed.

(** C3, counterexample. A delta for index 0 on the fresh stream leaves the
    content sequence empty: index 0 is not addressable afterwards. *)
Lemma delta_before_start_counterexample :
  let s := NewMessageStream (Reader.mk "" EOF) in
  updateMessage s (text_delta 0 "x") = Done s ∧ content s !! 0%nat = None.
Proof. split; reflexivity. Qed.

(** C3, witness. *)
Lemma delta_beyond_length_witness :
  let s := NewMessageStream (Reader.mk "" EOF) in
  updateMessage s (text_delta 0 "x") = Done s.
Proof.
  apply (delta_beyond_length_ignored _ (text_delta 0 "x") 0); [reflexivity|reflexivity|].
  simpl. lia.
Defined.

(** C2, witness: the fragments Hel and lo. *)
Lemma text_is_concatenation_witness :
  let evs := [start 0 (text_block ""); text_delta 0 "Hel"; text_delta 0 "lo"; stop 0] in
  ∃ s' b tb',
    updateMessages (NewMessageStream (Reader.mk "" EOF)) evs = Done s' ∧
    content s' !! 0%nat = Some b ∧
    ContentBlock.TextContent b = Some tb' ∧
    TextBlock.Text tb' = "Hello".
Proof.
  apply (text_is_concatenation (Reader.mk "" EOF)
           [start 0 (text_block ""); text_delta 0 "Hel"; text_delta 0 "lo"; stop 0]
           0 (start 0 (text_block "")) (text_block "") (TextBlock.mk TextContentType "")).
  - apply lifecycle_ok_spec. vm_compute. reflexivity.
  - apply list_elem_of_here.
  - split; reflexivity.
  - reflexivity.
  - reflexivity.
  - reflexivity.
Defined.

(** C1, witness: an object with the members a and b sent in three
    fragments. *)
Lemma tool_input_witness :
  ∃ s' b tu',
    updateMessages (NewMessageStream (Reader.mk "" EOF))
      (tool_call (map quoted ["{'a'"; ":1,'b':2"; "}"])) = Done s' ∧
    content s' !! 0%nat = Some b ∧
    ContentBlock.ToolUseContent b = Some tu' ∧
    ToolUseBlock.Input tu' = JObject [("a", JNumber "1"); ("b", JNumber "2")].
Proof.
  apply (tool_input_is_parsed_payload (Reader.mk "" EOF)
           (tool_call (map quoted ["{'a'"; ":1,'b':2"; "}"]))
           0 (start 0 (tool_block (JObject []))) (tool_block (JObject []))
           (ToolUseBlock.mk ToolUseContentType "toolu_1" "calculator" (JObject []))
           (quoted "{'a':1,'b':2}")).
  - apply lifecycle_ok_spec. vm_compute. reflexivity.
  - apply list_elem_of_here.
  - split; reflexivity.
  - reflexivity.
  - reflexivity.
  - vm_compute. reflexivity.
  - vm_compute. reflexivity.
  - vm_compute. reflexivity.
  - vm_compute. reflexivity.
Defined.

(** C6, witness: the signature after the deltas ab and cd is cd. *)
Lemma signature_is_last_delta_witness :
  ∃ s' b' th',
    updateMessages (accumulated [thinking_block "step" ""])
      [signature_delta 0 "ab"; text_delta 0 "x"; signature_delta 0 "cd"] = Done s' ∧
    content s' !! 0%nat = Some b' ∧
    ContentBlock.ThinkingContent b' = Some th' ∧
    ThinkingBlock.Signature th' = "cd".
Proof.
  apply (signature_is_last_delta (accumulated [thinking_block "step" ""])
           [signature_delta 0 "ab"; text_delta 0 "x"; signature_delta 0 "cd"]
           0 (thinking_block "step" "") (ThinkingBlock.mk ThinkingContentType "step" "")).
  - reflexivity.
  - reflexivity.
  - intros e idx He Hidx.
    repeat (apply elem_of_cons in He as [->|He]; [injection Hidx as <-; lia|]).
    by apply elem_of_nil in He.
  - intros e He [Hty _].
    repeat (apply elem_of_cons in He as [->|He]; [discriminate Hty|]).
    by apply elem_of_nil in He.
  - reflexivity.
Defined.

(** C7, witness: index 5 started on the fresh stream. *)
Lemma start_at_index_5_witness :
  ∃ s', updateMessage (NewMessageStream (Reader.mk "" EOF)) (start 5 (text_block "")) = Done s' ∧
        (6 ≤ length (content s'))%nat ∧
        (∀ j, (j < 5)%nat → content s' !! j = Some ContentBlock.zero) ∧
        content s' !! 5%nat = Some (text_block "").
Proof.
  apply (start_at_index_5 (Reader.mk "" EOF) [] (NewMessageStream (Reader.mk "" EOF))
           (start 5 (text_block "")) (text_block "")).
  - intros ev j Hev. by apply elem_of_nil in Hev.
  - reflexivity.
  - reflexivity.
  - reflexivity.
  - reflexivity.
Defined.

(** C8, witness: a read that fails. *)
Lemma errors_are_terminal_witness :
  let s := NewMessageStream (Reader.mk "data: " (ReadFailure "connection reset")) in
  let s' := set_err (set_reader s (Reader.mk "" (ReadFailure "connection reset")))
              (Some (ErrorReadingStream "connection reset")) in
  Next s = Done (false, s') ∧
  (false = false ∧
   ∀ n, Next_times n s' = Done (false, s') ∧
        Err s' = Some (ErrorReadingStream "connection reset")).
Proof.
  split; [vm_compute; reflexivity|].
  apply (errors_are_terminal
           (NewMessageStream (Reader.mk "data: " (ReadFailure "connection reset")))
           false _ (ErrorReadingStream "connection reset")).
  - vm_compute. reflexivity.
  - reflexivity.
Defined.

(** C9, witness: a well-formed data line without its line feed. *)
Lemma unterminated_final_line_witness :
  let s := NewMessageStream (Reader.mk (quoted "data: {'type':'message_stop','stop_reason':'end_turn'}") EOF) in
  let s' := set_reader s (Reader.mk "" EOF) in
  Next s = Done (false, s') ∧ Next s' = Done (false, s').
Proof.
  apply (unterminated_final_line_discarded
           (NewMessageStream (Reader.mk (quoted "data: {'type':'message_stop','stop_reason':'end_turn'}") EOF))).
  - reflexivity.
  - reflexivity.
  - vm_compute. reflexivity.
Defined.

(** C10, witness: a text delta for the second of two blocks. *)
Lemma update_frame_witness :
  let s := accumulated [text_block "a"; text_block "b"] in
  let s' := accumulated [text_block "a"; text_block "bc"] in
  (length (content s) ≤ length (content s'))%nat ∧
  ∀ j, Event.Index (text_delta 1 "c") ≠ Some (Z.of_nat j) →
    ((j < length (content s))%nat → content s' !! j = content s !! j) ∧
    ((length (content s) ≤ j < length (content s'))%nat →
       content s' !! j = Some ContentBlock.zero).
Proof.
  apply (update_frame (accumulated [text_block "a"; text_block "b"]) (text_delta 1 "c")
           (accumulated [text_block "a"; text_block "bc"])).
  vm_compute. reflexivity.
Defined.

(** * More of the assembler

    What the deltas add up to from any state of a block, when the assembler
    panics, and what an event leaves alone. *)

Section Accumulation.
Context `{Unmarshal}.

Lemma steps_text_from evs j : ∀ v tb,
  Forall (λ e, ¬ addresses ContentBlockStartEvent j e) evs →
  ContentBlock.TextContent (fst v) = Some tb →
  ∃ tb', ContentBlock.TextContent (fst (steps evs j v)) = Some tb' ∧
         TextBlock.Text tb' =
         TextBlock.Text tb +:+ concat_strings (fragments "text_delta" Delta.Text j evs).
Proof.
  induction evs as [|e evs IH]; intros v tb Hns Htb.
  - exists tb. split; [done|]. symmetry. apply append_nil_r.
  - apply Forall_cons in Hns as [Hne Hns]. rewrite steps_cons, fragments_cons.
    destruct (step_text e j v tb Hne Htb) as (tb1 & Htb1 & Htxt1).
    destruct (IH _ tb1 Hns Htb1) as (tb' & Htb' & Htxt').
    exists tb'. split; [done|]. rewrite Htxt', Htxt1, append_assoc. f_equal.
    by destruct (fragment_of _ _ _ e).
Qed.

(** X1. From any state in which position [j] holds a text block, events
    with zero-based indices and no start for [j] are all folded without a
    panic, and the text of the block afterwards is the text it had followed
    by the texts of the text deltas for [j], in order; a stop for [j] among
    the events does not end this. *)
Theorem text_accumulates s evs j b tb :
  content s !! j = Some b → ContentBlock.TextContent b = Some tb →
  (∀ e idx, e ∈ evs → Event.Index e = Some idx → 0 ≤ idx) →
  (∀ e, e ∈ evs → ¬ addresses ContentBlockStartEvent j e) →
  ∃ s' b' tb',
    updateMessages s evs = Done s' ∧
    content s' !! j = Some b' ∧
    ContentBlock.TextContent b' = Some tb' ∧
    TextBlock.Text tb' =
    TextBlock.Text tb +:+ concat_strings (fragments "text_delta" Delta.Text j evs).
Proof.
  intros Hb Htb Hnn Hns.
  destruct (updateMessages_Done evs s Hnn) as [s' Hrun].
  pose proof (updateMessages_steps _ _ _ j Hrun) as Hv.
  assert (Htb0 : ContentBlock.TextContent
                   (block_at s j, buffer s (Z.of_nat j)).1 = Some tb).
  { unfold block_at. by rewrite Hb. }
  destruct (steps_text_from evs j _ tb (proj2 (Forall_forall _ _) Hns) Htb0)
    as (tb' & Htb' & Htxt).
  rewrite <- Hv in Htb'. simpl in Htb'.
  exists s', (block_at s' j), tb'. split; [done|]. split; [|done].
  apply block_at_lookup. intros Hz. by rewrite Hz in Htb'.
Qed.

Lemma step_thinking e j v th :
  ¬ addresses ContentBlockStartEvent j e →
  ContentBlock.ThinkingContent (fst v) = Some th →
  ∃ th', ContentBlock.ThinkingContent (fst (step e j v)) = Some th' ∧
         ThinkingBlock.Thinking th' =
         ThinkingBlock.Thinking th +:+
         default "" (fragment_of "thinking_delta" Delta.Thinking j e).
Proof.
  intros Hs Hth. destruct v as [b buf]. simpl in Hth.
  unfold step, fragment_of, addresses in *. kinds.
  destruct (decide (Event.Index e = Some (Z.of_nat j))) as [Hi|Hi].
  2: { rewrite decide_False by (by intros [_ ?]). exists th. by rewrite append_nil_r. }
  destruct (decide (Event.Type_ e = "content_block_start")) as [Hk|_];
    [exfalso; by apply Hs|].
  destruct (decide (Event.Type_ e = "content_block_delta")) as [Hk|Hk].
  - rewrite decide_True by done.
    destruct (Event.Delta e) as [d|]; [|exists th; by rewrite append_nil_r].
    unfold step_delta.
    destruct (decide (Delta.Type_ d = "thinking_delta")) as [Hd|Hd].
    { rewrite !decide_False by (rewrite Hd; discriminate).
      rewrite Hth. simpl. eauto. }
    repeat case_decide; repeat case_match; simpl; simplify_eq;
      eexists; (split; [done|]); simpl; by rewrite append_nil_r.
  - rewrite (decide_False (P := _ ∧ _)) by (by intros [? _]).
    repeat case_decide; repeat case_match; simpl; exists th; by rewrite append_nil_r.
Qed.

Lemma steps_thinking evs j : ∀ v th,
  Forall (λ e, ¬ addresses ContentBlockStartEvent j e) evs →
  ContentBlock.ThinkingContent (fst v) = Some th →
  ∃ th', ContentBlock.ThinkingContent (fst (steps evs j v)) = Some th' ∧
         ThinkingBlock.Thinking th' =
         ThinkingBlock.Thinking th +:+
         concat_strings (fragments "thinking_delta" Delta.Thinking j evs).
Proof.
  induction evs as [|e evs IH]; intros v th Hns Hth.
  - exists th. split; [done|]. symmetry. apply append_nil_r.
  - apply Forall_cons in Hns as [Hne Hns]. rewrite steps_cons, fragments_cons.
    destruct (step_thinking e j v th Hne Hth) as (th1 & Hth1 & Htxt1).
    destruct (IH _ th1 Hns Hth1) as (th' & Hth' & Htxt').
    exists th'. split; [done|]. rewrite Htxt', Htxt1, append_assoc. f_equal.
    by destruct (fragment_of _ _ _ e).
Qed.

(** X2. From any state in which position [j] holds a thinking block,
    events with zero-based indices and no start for [j] leave it a thinking
    block whose thinking is the one it had followed by those of the
    thinking deltas for [j], in order. *)
Theorem thinking_accumulates s evs j b th :
  content s !! j = Some b → ContentBlock.ThinkingContent b = Some th →
  (∀ e idx, e ∈ evs → Event.Index e = Some idx → 0 ≤ idx) →
  (∀ e, e ∈ evs → ¬ addresses ContentBlockStartEvent j e) →
  ∃ s' b' th',
    updateMessages s evs = Done s' ∧
    content s' !! j = Some b' ∧
    ContentBlock.ThinkingContent b' = Some th' ∧
    ThinkingBlock.Thinking th' =
    ThinkingBlock.Thinking th +:+
    concat_strings (fragments "thinking_delta" Delta.Thinking j evs).
Proof.
  intros Hb Hth Hnn Hns.
  destruct (updateMessages_Done evs s Hnn) as [s' Hrun].
  pose proof (updateMessages_steps _ _ _ j Hrun) as Hv.
  assert (Hth0 : ContentBlock.ThinkingContent
                   (block_at s j, buffer s (Z.of_nat j)).1 = Some th).
  { unfold block_at. by rewrite Hb. }
  destruct (steps_thinking evs j _ th (proj2 (Forall_forall _ _) Hns) Hth0)
    as (th' & Hth' & Htxt).
  rewrite <- Hv in Hth'. simpl in Hth'.
  exists s', (block_at s' j), th'. split; [done|]. split; [|done].
  apply block_at_lookup. intros Hz. by rewrite Hz in Hth'.
Qed.

Lemma step_buffer e j v tu :
  ¬ addresses ContentBlockStartEvent j e →
  ContentBlock.ToolUseContent (fst v) = Some tu →
  ∃ tu', ContentBlock.ToolUseContent (fst (step e j v)) = Some tu' ∧
         snd (step e j v) =
         snd v +:+
         default "" (fragment_of "input_json_delta" Delta.PartialJSON j e).
Proof.
  intros Hs Htu.
  destruct (decide (addresses ContentBlockStopEvent j e)) as [Hp|Hp].
  - rewrite (step_stop _ _ _ tu Hp Htu). simpl.
    rewrite quiet_fragment by (by apply stop_not_delta). simpl.
    eexists. split; [|by rewrite append_nil_r]. by destruct (fst v).
  - by apply (step_tool e j v tu).
Qed.

Lemma steps_buffer evs j : ∀ v tu,
  Forall (λ e, ¬ addresses ContentBlockStartEvent j e) evs →
  ContentBlock.ToolUseContent (fst v) = Some tu →
  ∃ tu', ContentBlock.ToolUseContent (fst (steps evs j v)) = Some tu' ∧
         snd (steps evs j v) =
         snd v +:+
         concat_strings (fragments "input_json_delta" Delta.PartialJSON j evs).
Proof.
  induction evs as [|e evs IH]; intros v tu Hns Htu.
  - exists tu. split; [done|]. symmetry. apply append_nil_r.
  - apply Forall_cons in Hns as [Hne Hns]. rewrite steps_cons, fragments_cons.
    destruct (step_buffer e j v tu Hne Htu) as (tu1 & Htu1 & Hbuf1).
    destruct (IH _ tu1 Hns Htu1) as (tu' & Htu' & Hbuf').
    exists tu'. split; [done|]. rewrite Hbuf', Hbuf1, append_assoc. f_equal.
    by destruct (fragment_of _ _ _ e).
Qed.

(** X3. From any state in which position [j] holds a tool-use block,
    events with zero-based indices and no start for [j] leave it a tool-use
    block, and the JSON buffer of [j] afterwards is the buffer there was
    followed by the fragments of the input deltas for [j], in order: a stop
    does not clear the buffer. *)
Theorem buffer_accumulates s evs j b tu :
  content s !! j = Some b → ContentBlock.ToolUseContent b = Some tu →
  (∀ e idx, e ∈ evs → Event.Index e = Some idx → 0 ≤ idx) →
  (∀ e, e ∈ evs → ¬ addresses ContentBlockStartEvent j e) →
  ∃ s' b' tu',
    updateMessages s evs = Done s' ∧
    content s' !! j = Some b' ∧
    ContentBlock.ToolUseContent b' = Some tu' ∧
    buffer s' (Z.of_nat j) =
    buffer s (Z.of_nat j) +:+
    concat_strings (fragments "input_json_delta" Delta.PartialJSON j evs).
Proof.
  intros Hb Htu Hnn Hns.
  destruct (updateMessages_Done evs s Hnn) as [s' Hrun].
  pose proof (updateMessages_steps _ _ _ j Hrun) as Hv.
  assert (Htu0 : ContentBlock.ToolUseContent
                   (block_at s j, buffer s (Z.of_nat j)).1 = Some tu).
  { unfold block_at. by rewrite Hb. }
  destruct (steps_buffer evs j _ tu (proj2 (Forall_forall _ _) Hns) Htu0)
    as (tu' & Htu' & Hbuf).
  rewrite <- Hv in Htu', Hbuf. simpl in Htu', Hbuf.
  exists s', (block_at s' j), tu'. split; [done|]. split; [|done].
  apply block_at_lookup. intros Hz. by rewrite Hz in Htu'.
Qed.

Lemma index_get_Panic {A} (l : list A) i :
  index_get l i = Panic ↔ ¬ (0 ≤ i < Z.of_nat (length l)).
Proof.
  unfold index_get. case_decide as Hi.
  - destruct (l !! Z.to_nat i) eqn:E.
    + apply lookup_lt_Some in E. split; [done|lia].
    + apply lookup_ge_None in E. split; [lia|done].
  - split; [lia|done].
Qed.

Lemma index_set_Panic {A} (l : list A) i a :
  index_set l i a = Panic ↔ ¬ (0 ≤ i < Z.of_nat (length l)).
Proof. unfold index_set. case_decide; naive_solver. Qed.

Lemma parse_input_Panic s idx b tu str :
  parse_input s idx b tu str = Panic →
  ¬ (0 ≤ idx < Z.of_nat (length (content s))).
Proof.
  unfold parse_input. repeat case_match; try done.
  destruct (index_set _ _ _) eqn:E; try done. intros _.
  by apply index_set_Panic in E.
Qed.

Lemma bind_Panic {A B} (m : outcome A) (f : A → outcome B) :
  m ≫= f = Panic → m = Panic ∨ ∃ a, m = Done a ∧ f a = Panic.
Proof. destruct m; simpl; eauto; done. Qed.

(** X4. [updateMessage] panics exactly on a negative index in an event that
    indexes the content sequence: a block start that carries a block, a
    delta of one of the four known types, or a block stop. *)
Theorem updateMessage_panics_iff s e :
  updateMessage s e = Panic ↔
  ∃ idx, Event.Index e = Some idx ∧ idx < 0 ∧ indexes_content e.
Proof.
  split.
  - unfold updateMessage, indexes_content, known_delta.
    change (Message.Content (MessageStream.message s)) with (content s).
    destruct (decide (Event.Type_ e = MessageStartEvent)) as [_|_];
      [by case_match|].
    destruct (decide (Event.Type_ e = ContentBlockStartEvent)) as [Hk|_].
    { destruct (Event.ContentBlock e) as [cb|] eqn:Ecb, (Event.Index e) as [idx|];
        try done.
      intros [Hp|(c & Hc & Hp)]%bind_Panic; [|by case_match].
      apply index_set_Panic in Hp. rewrite grow_length in Hp.
      exists idx. split; [done|]. split; [lia|]. left. eauto. }
    destruct (decide (Event.Type_ e = ContentBlockDeltaEvent)) as [Hk|_].
    { destruct (Event.Delta e) as [d|] eqn:Ed, (Event.Index e) as [idx|]; try done.
      case_decide as Hlt; [|done].
      assert (Hgoal : ¬ (0 ≤ idx < Z.of_nat (length (content s))) → known_delta d →
        ∃ idx0, Some idx = Some idx0 ∧ idx0 < 0 ∧
          (Event.Type_ e = ContentBlockStartEvent ∧ is_Some (Event.ContentBlock e)
           ∨ Event.Type_ e = ContentBlockDeltaEvent ∧
             (∃ delta, Some d = Some delta ∧ known_delta delta)
           ∨ Event.Type_ e = ContentBlockStopEvent)).
      { intros Hnot Hkd. exists idx. split; [done|]. split; [lia|]. right. left. eauto. }
      unfold known_delta in Hgoal.
      repeat case_decide; try done;
        (intros [Hp|(b & Hb & Hp)]%bind_Panic;
         [apply index_get_Panic in Hp; apply Hgoal; tauto|]);
        apply index_get_Done in Hb as [? Hb]; apply lookup_lt_Some in Hb;
        revert Hp; case_match; try done.
      all: try (intros [Hp|(? & ? & ?)]%bind_Panic; [|done];
                apply index_set_Panic in Hp; lia).
      intros Hp%parse_input_Panic. unfold content in *. simpl in Hp. lia. }
    destruct (decide (Event.Type_ e = ContentBlockStopEvent)) as [Hk|_].
    { destruct (Event.Index e) as [idx|]; [|done].
      case_decide as Hlt; [|done].
      intros [Hp|(b & Hb & Hp)]%bind_Panic.
      - apply index_get_Panic in Hp. exists idx. split; [done|]. split; [lia|].
        by right; right.
      - apply index_get_Done in Hb as [? Hb]; apply lookup_lt_Some in Hb.
        revert Hp. case_match; [|done]. intros Hp%parse_input_Panic. lia. }
    repeat case_match; done.
  - intros (idx & Hidx & Hneg & Hcase). unfold updateMessage. rewrite Hidx.
    change (Message.Content (MessageStream.message s)) with (content s).
    assert (Hget : index_get (content s) idx = Panic) by (apply index_get_Panic; lia).
    destruct Hcase as [[Hk [cb Hcb]]|[[Hk (d & Hd & Hkd)]|Hk]]; rewrite Hk; kinds.
    + rewrite decide_False by discriminate. rewrite decide_True by done.
      rewrite Hcb. unfold index_set. rewrite decide_False; [done|lia].
    + rewrite !decide_False by discriminate. rewrite decide_True by done.
      rewrite Hd. rewrite decide_True by lia. rewrite Hget.
      destruct Hkd as [Hd'|[Hd'|[Hd'|Hd']]]; rewrite Hd';
        repeat (rewrite decide_False by discriminate); by rewrite decide_True.
    + rewrite !decide_False by discriminate. rewrite decide_True by done.
      rewrite decide_True by lia. by rewrite Hget.
Qed.

(** X5. A block stop applied a second time changes nothing: the state after
    the first one is the state after the second. *)
Theorem stop_is_idempotent s e s1 :
  Event.Type_ e = ContentBlockStopEvent →
  updateMessage s e = Done s1 → updateMessage s1 e = Done s1.
Proof.
  intros Hk. unfold updateMessage. rewrite Hk. kinds. simpl.
  destruct (Event.Index e) as [idx|]; [|by intros [= <-]].
  change (Message.Content (MessageStream.message s)) with (content s).
  change (Message.Content (MessageStream.message s1)) with (content s1).
  case_decide as Hlt.
  2: { intros [= <-]. by rewrite decide_False. }
  intros (b & Hidx & Hb & Hf)%bind_get_Done.
  destruct (ContentBlock.ToolUseContent b) as [tu|] eqn:Etu.
  2: { injection Hf as <-. rewrite decide_True by done.
       unfold index_get. rewrite decide_True by done. rewrite Hb. simpl. by rewrite Etu. }
  unfold parse_input in Hf.
  destruct (HasPrefix _ _ && HasSuffix _ _) eqn:Ebr.
  2: { injection Hf as <-. rewrite decide_True by done.
       unfold index_get. rewrite decide_True by done. rewrite Hb. simpl. rewrite Etu.
       unfold parse_input. by rewrite Ebr. }
  destruct (json_Unmarshal_map _) as [o|] eqn:Eun.
  2: { injection Hf as <-. rewrite decide_True by done.
       unfold index_get. rewrite decide_True by done. rewrite Hb. simpl. rewrite Etu.
       unfold parse_input. by rewrite Ebr, Eun. }
  apply bind_set_Done in Hf as (Hrange & Hc & Hbuf).
  assert (Hbuf' : buffer s1 idx = buffer s idx) by (unfold buffer; by rewrite Hbuf).
  rewrite decide_True by (rewrite Hc, length_insert; lia).
  unfold index_get. rewrite decide_True by done.
  rewrite Hc at 1. rewrite list_lookup_insert_eq by lia. simpl.
  unfold parse_input. rewrite Hbuf', Ebr, Eun.
  unfold index_set. fold (content s1).
  rewrite decide_True by (rewrite Hc, length_insert; lia). simpl.
  f_equal.
  destruct s1 as [r1 c1 e1 [id1 ro1 co1 mo1 sr1 ss1 us1] b1].
  unfold content in Hc. simpl in Hc. subst co1.
  unfold set_message_Content, set_message, set_Content, content. simpl.
  rewrite list_insert_insert_eq. by destruct b.
Qed.

(** X6. A delta for a position that holds a block of another kind (a text
    delta for a tool-use block, an input delta for a text block, a delta of
    an unknown type, ...) leaves the whole state as it is, the JSON buffers
    included. *)
Theorem mismatched_delta_is_ignored s e delta idx b :
  Event.Type_ e = ContentBlockDeltaEvent →
  Event.Delta e = Some delta → Event.Index e = Some idx →
  0 ≤ idx → content s !! Z.to_nat idx = Some b →
  ¬ delta_applies delta b →
  updateMessage s e = Done s.
Proof.
  intros Hk Hd Hidx Hnn Hb Hno. unfold updateMessage. rewrite Hk, Hd, Hidx. kinds.
  rewrite !decide_False by discriminate. rewrite decide_True by done.
  change (Message.Content (MessageStream.message s)) with (content s).
  case_decide; [|done].
  unfold index_get. rewrite !(decide_True (P := 0 ≤ idx)) by done. rewrite !Hb. simpl.
  unfold delta_applies in Hno.
  repeat case_decide; try done; case_match; try done; exfalso; apply Hno; eauto 10.
Qed.

(** X7. An event that is no block start, delta or stop, or that carries no
    index, is folded without a panic and leaves the content sequence and
    the JSON buffers as they are. *)
Theorem unindexed_event_keeps_blocks s e :
  ¬ (Event.Type_ e = ContentBlockStartEvent ∨
     Event.Type_ e = ContentBlockDeltaEvent ∨
     Event.Type_ e = ContentBlockStopEvent) ∨ Event.Index e = None →
  ∃ s', updateMessage s e = Done s' ∧
        content s' = content s ∧
        MessageStream.jsonBuffers s' = MessageStream.jsonBuffers s.
Proof.
  intros Hcase. unfold updateMessage.
  destruct Hcase as [Hk|Hidx].
  - rewrite !(decide_False (P := Event.Type_ e = ContentBlockStartEvent)) by tauto.
    rewrite !(decide_False (P := Event.Type_ e = ContentBlockDeltaEvent)) by tauto.
    rewrite !(decide_False (P := Event.Type_ e = ContentBlockStopEvent)) by tauto.
    repeat case_decide; repeat case_match; eauto.
  - rewrite Hidx. repeat case_decide; repeat case_match; eauto.
Qed.

Lemma parse_input_header s idx b tu str s' :
  parse_input s idx b tu str = Done s' →
  message_identity (Message s') = message_identity (Message s) ∧
  message_completion (Message s') = message_completion (Message s).
Proof.
  unfold parse_input. repeat case_match; try by intros [= <-].
  destruct (index_set _ _ _); by intros [= <-].
Qed.

(** X8. Only [message_start] writes the id, the role and the model of the
    message, only [message_stop] its stop reason and usage, and nothing
    writes its stop sequence: a [message_delta] event, in particular,
    leaves the message as it is. *)
Theorem header_fields_by_event s e s' :
  updateMessage s e = Done s' →
  (Event.Type_ e ≠ MessageStartEvent → message_identity (Message s') = message_identity (Message s)) ∧
  (Event.Type_ e ≠ MessageStopEvent → message_completion (Message s') = message_completion (Message s)) ∧
  Message.StopSequence (Message s') = Message.StopSequence (Message s).
Proof.
  unfold updateMessage.
  destruct (decide (Event.Type_ e = MessageStartEvent)) as [Hk|Hk].
  { rewrite Hk. destruct (Event.Message e); by intros [= <-]. }
  assert (Hgoal : message_identity (Message s') = message_identity (Message s) ∧
                  message_completion (Message s') = message_completion (Message s) →
    (Event.Type_ e ≠ MessageStartEvent → message_identity (Message s') = message_identity (Message s)) ∧
    (Event.Type_ e ≠ MessageStopEvent → message_completion (Message s') = message_completion (Message s)) ∧
    Message.StopSequence (Message s') = Message.StopSequence (Message s)).
  { intros [Hi Hc]. split; [done|]. split; [done|]. by injection Hc. }
  destruct (decide (Event.Type_ e = MessageStopEvent)) as [Hs|Hs].
  { rewrite Hs. kinds. simpl.
    destruct (Event.StopReason e), (Event.Usage e); by intros [= <-]. }
  intros Hrun. apply Hgoal. revert Hrun. clear Hgoal.
  repeat case_match; try (by intros [= <-]).
  all: try (destruct (index_set _ _ _); by intros [= <-]).
  all: try (destruct (index_get _ _); simpl; try done; repeat case_match;
            try (by intros [= <-]);
            try (destruct (index_set _ _ _); by intros [= <-])).
  all: try by intros ?%parse_input_header.
Qed.

(** X9. The length of the content sequence after any events is settled by
    the block starts among them alone: each start that carries a block and
    an index raises the length to that index plus one when it was less, and
    no other event changes it. *)
Theorem content_length_after s evs s' :
  updateMessages s evs = Done s' →
  Z.of_nat (length (content s')) =
  foldl (fun len event => grown event len) (Z.of_nat (length (content s))) evs.
Proof.
  revert s. induction evs as [|e evs IH]; intros s; simpl.
  - by intros [= <-].
  - destruct (updateMessage s e) as [s1| |] eqn:E; try done. simpl.
    intros Hrun. apply IH in Hrun. apply updateMessage_length in E. by rewrite <- E.
Qed.

End Accumulation.

(** * More of the decoder

    What a call of [Next] that returns [true] or [false] has done, the
    lines it passes over, and the loop over [Next] on a whole input. *)

Section Reading.
Context `{Unmarshal}.

Lemma Next_loop_true fuel s s' :
  Next_loop fuel s = Done (true, s') →
  Err s = None ∧ Err s' = None ∧
  ∃ event,
    Current s' = Some event ∧
    updateMessage (set_currentEvent (set_reader s (MessageStream.reader s')) (Some event))
      event = Done s'.
Proof.
  revert s. induction fuel as [|fuel IH]; intros s; simpl; [done|].
  destruct (MessageStream.err s) eqn:Eerr; [done|].
  unfold ReadBytes.
  destruct (cut_at _ _) as [[line rest]|] eqn:Ecut.
  - assert (Hrec : Next_loop fuel
        (set_reader s (Reader.mk rest (Reader.final (MessageStream.reader s)))) =
        Done (true, s') →
      Err s = None ∧ Err s' = None ∧ ∃ event, Current s' = Some event ∧
        updateMessage (set_currentEvent (set_reader s (MessageStream.reader s')) (Some event))
          event = Done s').
    { intros (_ & ? & event & ? & Hup)%IH. split; [done|]. split; [done|]. by exists event. }
    case_decide; [done|].
    destruct (negb _); [done|].
    destruct (json_Unmarshal_Event _) as [event|]; [|done].
    destruct (updateMessage _ _) as [s1| |] eqn:Eup; try done. simpl.
    intros [= <-]. pose proof (updateMessage_rest _ _ _ Eup) as (Hr & Hc & He).
    unfold Err, Current. simpl in *. split; [done|]. split; [by rewrite He|].
    exists event. split; [done|]. by rewrite Hr.
  - by destruct (Reader.final _).
Qed.

(** X10. When [Next] returns [true] there was no error before and there is
    none after, the current event is set, and the state is the one
    [updateMessage] makes of that event on the state before, with the
    reader advanced. *)
Theorem Next_true s s' :
  Next s = Done (true, s') →
  Err s = None ∧ Err s' = None ∧
  ∃ event,
    Current s' = Some event ∧
    updateMessage (set_currentEvent (set_reader s (MessageStream.reader s')) (Some event))
      event = Done s'.
Proof. apply Next_loop_true. Qed.

Lemma Next_loop_false fuel s s' :
  Next_loop fuel s = Done (false, s') →
  Message s' = Message s ∧
  MessageStream.jsonBuffers s' = MessageStream.jsonBuffers s ∧
  Current s' = Current s ∧
  (Err s' = None →
   Err s = None ∧ Reader.final (MessageStream.reader s) = EOF ∧
   MessageStream.reader s' = Reader.mk "" EOF).
Proof.
  revert s. induction fuel as [|fuel IH]; intros s; simpl; [done|].
  destruct (MessageStream.err s) eqn:Eerr.
  { intros [= <-]. unfold Err. rewrite Eerr. done. }
  unfold ReadBytes.
  destruct (cut_at _ _) as [[line rest]|] eqn:Ecut.
  - assert (Hrec : Next_loop fuel
        (set_reader s (Reader.mk rest (Reader.final (MessageStream.reader s)))) =
        Done (false, s') →
      Message s' = Message s ∧
      MessageStream.jsonBuffers s' = MessageStream.jsonBuffers s ∧
      Current s' = Current s ∧
      (Err s' = None → Err s = None ∧ Reader.final (MessageStream.reader s) = EOF ∧
         MessageStream.reader s' = Reader.mk "" EOF)).
    { intros (? & ? & ? & Hend)%IH. repeat split; try done; by apply Hend. }
    case_decide; [done|].
    destruct (negb _); [done|].
    destruct (json_Unmarshal_Event _) as [event|]; [|by intros [= <-]].
    by destruct (updateMessage _ _).
  - destruct (Reader.final _) eqn:Efin; intros [= <-]; repeat split; try done.
Qed.

(** X11. When [Next] returns [false] the message, the JSON buffers and the
    current event are what they were; and when no error is recorded
    afterwards none was recorded before and the input was read to its
    end. *)
Theorem Next_false s s' :
  Next s = Done (false, s') →
  Message s' = Message s ∧
  MessageStream.jsonBuffers s' = MessageStream.jsonBuffers s ∧
  Current s' = Current s ∧
  (Err s' = None →
   Err s = None ∧ Reader.final (MessageStream.reader s) = EOF ∧
   MessageStream.reader s' = Reader.mk "" EOF).
Proof. apply Next_loop_false. Qed.

(** Fuel beyond the bytes to read makes no difference. *)
Lemma Next_loop_more_fuel fuel fuel' s :
  (String.length (Reader.pending (MessageStream.reader s)) < fuel)%nat →
  (String.length (Reader.pending (MessageStream.reader s)) < fuel')%nat →
  Next_loop fuel s = Next_loop fuel' s.
Proof.
  revert fuel' s. induction fuel as [|fuel IH]; intros fuel' s Hf Hf'; [lia|].
  destruct fuel' as [|fuel']; [lia|]. simpl.
  destruct (MessageStream.err s); [done|].
  unfold ReadBytes.
  destruct (cut_at _ _) as [[line rest]|] eqn:Ecut; [|done].
  apply cut_at_length in Ecut.
  assert (Hrec : Next_loop fuel
      (set_reader s (Reader.mk rest (Reader.final (MessageStream.reader s)))) =
    Next_loop fuel'
      (set_reader s (Reader.mk rest (Reader.final (MessageStream.reader s)))))
    by (apply IH; simpl; lia).
  case_decide; [done|]. by destruct (negb _).
Qed.

(** X12. A line that is blank, or that does not start with [data: ] once
    trimmed (an [event:] line, a comment), is passed over: [Next] does what
    it does on the input after that line. *)
Theorem Next_skips_line s l rest :
  Err s = None →
  unterminated l →
  Reader.pending (MessageStream.reader s) = l +:+ newline +:+ rest →
  TrimSpace (l +:+ newline) = "" ∨ HasPrefix (TrimSpace (l +:+ newline)) "data: " = false →
  Next s = Next (set_reader s (Reader.mk rest (Reader.final (MessageStream.reader s)))).
Proof.
  intros Herr Hl Hpend Hskip. unfold Next at 1. simpl.
  unfold Err in Herr. rewrite Herr. unfold ReadBytes. rewrite Hpend.
  unfold newline at 1.
  replace (l +:+ String "010" "" +:+ rest) with (l +:+ String "010" rest).
  2: { clear. induction l as [|c l IH]; [done|].
       change (String c (l +:+ String "010" rest) =
               String c (l +:+ String "010" "" +:+ rest)). by rewrite IH. }
  rewrite (cut_at_line _ _ _ Hl).
  fold newline.
  assert (Hlen : (String.length rest < String.length (l +:+ String "010" rest))%nat).
  { clear. induction l as [|c l IH]; simpl; [lia|].
    change (String.length rest < S (String.length (l +:+ String "010" rest)))%nat. lia. }
  assert (Hrec : Next_loop (String.length (l +:+ String "010" rest))
     (set_reader s (Reader.mk rest (Reader.final (MessageStream.reader s)))) =
     Next (set_reader s (Reader.mk rest (Reader.final (MessageStream.reader s))))).
  { unfold Next. apply Next_loop_more_fuel; simpl; lia. }
  destruct Hskip as [Hblank|Hpre].
  - rewrite Hblank. by rewrite decide_True.
  - case_decide; [done|]. by rewrite Hpre.
Qed.

Lemma parse_input_fields s idx b tu str r c er :
  parse_input (with_acc r c er s) idx b tu str =
  match parse_input s idx b tu str with
  | Done s' => Done (with_acc r c er s')
  | Panic => Panic
  | OutOfFuel => OutOfFuel
  end.
Proof.
  unfold parse_input. simpl. repeat case_match; try done.
  all: destruct (index_set _ _ _); simplify_eq/=; done.
Qed.

Lemma updateMessage_fields s e r c er :
  updateMessage (with_acc r c er s) e =
  match updateMessage s e with
  | Done s' => Done (with_acc r c er s')
  | Panic => Panic
  | OutOfFuel => OutOfFuel
  end.
Proof.
  unfold updateMessage. simpl.
  destruct (decide (Event.Type_ e = MessageStartEvent)); [by destruct (Event.Message e)|].
  destruct (decide (Event.Type_ e = ContentBlockStartEvent)).
  { destruct (Event.ContentBlock e) as [cb|], (Event.Index e) as [idx|]; try done.
    destruct (index_set _ _ _); simpl; try done.
    by destruct (ContentBlock.ToolUseContent cb). }
  destruct (decide (Event.Type_ e = ContentBlockDeltaEvent)).
  { destruct (Event.Delta e) as [d|], (Event.Index e) as [idx|]; try done.
    case_decide; [|done].
    repeat (case_decide; [destruct (index_get _ _) as [b| |]; simpl; try done|]);
      try done.
    - destruct (ContentBlock.TextContent b); [|done].
      by destruct (index_set _ _ _).
    - destruct (ContentBlock.ToolUseContent b); [|done].
      exact (parse_input_fields
               (set_jsonBuffers s
                  (<[idx:=buffer s idx +:+ Delta.PartialJSON d]>
                     (MessageStream.jsonBuffers s))) idx b _ _ r c er).
    - destruct (ContentBlock.ThinkingContent b); [|done].
      by destruct (index_set _ _ _).
    - destruct (ContentBlock.ThinkingContent b); [|done].
      by destruct (index_set _ _ _). }
  destruct (decide (Event.Type_ e = ContentBlockStopEvent)).
  { destruct (Event.Index e) as [idx|]; [|done].
    case_decide; [|done].
    destruct (index_get _ _) as [b| |]; simpl; try done.
    destruct (ContentBlock.ToolUseContent b); [|done].
    apply parse_input_fields. }
  case_decide; [|done].
  by destruct (Event.StopReason e), (Event.Usage e).
Qed.

Lemma updateMessages_fields evs : ∀ s r c er,
  updateMessages (with_acc r c er s) evs =
  match updateMessages s evs with
  | Done s' => Done (with_acc r c er s')
  | Panic => Panic
  | OutOfFuel => OutOfFuel
  end.
Proof.
  induction evs as [|e evs IH]; intros s r c er; [done|]. simpl.
  rewrite updateMessage_fields.
  destruct (updateMessage s e) as [s1| |]; simpl; [apply IH|done|done].
Qed.

Lemma lines_cons l ls rest :
  lines (l :: ls) +:+ rest = l +:+ String "010" (lines ls +:+ rest).
Proof.
  unfold lines. simpl. fold (lines ls). unfold newline.
  rewrite !append_assoc. done.
Qed.

Lemma cut_line_length l rest :
  (String.length rest < String.length (l +:+ String "010" rest))%nat.
Proof.
  induction l as [|c l IH]; simpl; [lia|].
  change (String.length rest < S (String.length (l +:+ String "010" rest)))%nat. lia.
Qed.

(** One line of the input, as [Next_loop] goes through it. *)
Lemma Next_loop_line fuel l rest final cur msg bufs :
  unterminated l →
  Next_loop (S fuel) (MessageStream.mk (Reader.mk (l +:+ String "010" rest) final) cur None msg bufs) =
  let s := MessageStream.mk (Reader.mk rest final) cur None msg bufs in
  match payload_of (l +:+ newline) with
  | None => Next_loop fuel s
  | Some data =>
      match json_Unmarshal_Event data with
      | None => Done (false, set_err s (Some ErrorParsingEvent))
      | Some event =>
          s ← updateMessage (set_currentEvent s (Some event)) event; Done (true, s)
      end
  end.
Proof.
  intros Hl. simpl. unfold ReadBytes. simpl. rewrite (cut_at_line _ _ _ Hl).
  unfold payload_of, newline. simpl.
  case_decide; [done|]. by destruct (HasPrefix _ _).
Qed.

Lemma Next_line l rest final cur msg bufs :
  unterminated l →
  Next (MessageStream.mk (Reader.mk (l +:+ String "010" rest) final) cur None msg bufs) =
  let s := MessageStream.mk (Reader.mk rest final) cur None msg bufs in
  match payload_of (l +:+ newline) with
  | None => Next s
  | Some data =>
      match json_Unmarshal_Event data with
      | None => Done (false, set_err s (Some ErrorParsingEvent))
      | Some event =>
          s ← updateMessage (set_currentEvent s (Some event)) event; Done (true, s)
      end
  end.
Proof.
  intros Hl. unfold Next at 1. simpl Reader.pending.
  rewrite (Next_loop_line _ _ _ _ _ _ _ Hl). simpl.
  destruct (payload_of _); [done|].
  unfold Next. apply Next_loop_more_fuel; simpl; [apply cut_line_length|lia].
Qed.

Lemma Next_tail tail final cur msg bufs :
  unterminated tail →
  Next (MessageStream.mk (Reader.mk tail final) cur None msg bufs) =
  Done (false,
        MessageStream.mk (Reader.mk "" final) cur
          match final with EOF => None | ReadFailure c => Some (ErrorReadingStream c) end
          msg bufs).
Proof.
  intros Ht. unfold Next. simpl. unfold ReadBytes. simpl. rewrite Ht.
  by destruct final.
Qed.

Lemma current_after_cons cur e events :
  current_after (Some e) events = current_after cur (e :: events).
Proof.
  unfold current_after. rewrite last_cons. by destruct (last events).
Qed.

Lemma events_of_cons l ls :
  events_of (l :: ls) =
  match payload_of (l +:+ newline) with
  | None => events_of ls
  | Some data =>
      match json_Unmarshal_Event data, events_of ls with
      | Some e, Some es => Some (e :: es)
      | _, _ => None
      end
  end.
Proof.
  unfold events_of. simpl. destruct (payload_of _); [|done]. simpl.
  destruct (json_Unmarshal_Event _); simpl; [|done]. by destruct (mapM _ _).
Qed.

(** The lines [ls] at the head of the input, when their data lines decode
    and the events fold without a panic: the loop delivers the events and
    goes on with what follows the lines. *)
Lemma drain_loop_prefix rest final ls : ∀ cur msg bufs n fuel events s_end,
  Forall unterminated ls →
  events_of ls = Some events →
  updateMessages
    (MessageStream.mk (Reader.mk (lines ls +:+ rest) final) cur None msg bufs)
    events = Done s_end →
  (length events ≤ fuel)%nat →
  drain_loop fuel
    (MessageStream.mk (Reader.mk (lines ls +:+ rest) final) cur None msg bufs) n =
  drain_loop (fuel - length events)
    (MessageStream.mk (Reader.mk rest final) (current_after cur events) None
       (MessageStream.message s_end) (MessageStream.jsonBuffers s_end))
    (n + length events).
Proof.
  induction ls as [|l ls IH]; intros cur msg bufs n fuel events s_end Hls Hev Hrun Hfuel.
  - injection Hev as <-. injection Hrun as <-. simpl.
    by rewrite Nat.sub_0_r, Nat.add_0_r.
  - apply Forall_cons in Hls as [Hl Hls]. rewrite events_of_cons in Hev.
    rewrite lines_cons in *.
    assert (Hstep : ∀ f m,
      drain_loop f (MessageStream.mk (Reader.mk (l +:+ String "010" (lines ls +:+ rest)) final)
                      cur None msg bufs) m =
      match f with
      | O => OutOfFuel
      | S f' =>
          r ← Next (MessageStream.mk (Reader.mk (l +:+ String "010" (lines ls +:+ rest)) final)
                      cur None msg bufs);
          match r with
          | (true, s') => drain_loop f' s' (S m)
          | (false, s') => Done (m, s')
          end
      end) by (by intros [|f] m).
    rewrite Hstep, (Next_line _ _ _ _ _ _ Hl). simpl.
    destruct (payload_of (l +:+ newline)) as [data|].
    + destruct (json_Unmarshal_Event data) as [e|]; [|done].
      destruct (events_of ls) as [es|] eqn:Ees; [|done]. injection Hev as <-.
      simpl in Hrun, Hfuel.
      destruct fuel as [|fuel]; [lia|].
      destruct (updateMessage _ e) as [s1| |] eqn:Eup; try done. simpl in Hrun.
      pose proof (updateMessage_fields
                    (MessageStream.mk (Reader.mk (l +:+ String "010" (lines ls +:+ rest)) final)
                       cur None msg bufs)
                    e (Reader.mk (lines ls +:+ rest) final) (Some e) None) as Hf.
      rewrite Eup in Hf. unfold with_acc in Hf. simpl in Hf.
      unfold set_currentEvent. simpl. rewrite Hf. simpl.
      pose proof (updateMessages_fields es s1 (Reader.mk (lines ls +:+ rest) final)
                    (Some e) None) as Hfs.
      rewrite Hrun in Hfs. unfold with_acc in Hfs.
      rewrite (IH _ _ _ (S n) fuel es _ Hls eq_refl Hfs) by lia.
      simpl. rewrite current_after_cons with (cur := cur).
      f_equal. lia.
    + destruct fuel as [|fuel].
      { destruct events; [|simpl in Hfuel; lia]. done. }
      pose proof (updateMessages_fields events
                    (MessageStream.mk (Reader.mk (l +:+ String "010" (lines ls +:+ rest)) final)
                       cur None msg bufs)
                    (Reader.mk (lines ls +:+ rest) final) cur None) as Hfs.
      rewrite Hrun in Hfs. unfold with_acc in Hfs. simpl in Hfs.
      pose proof (IH _ _ _ n (S fuel) events _ Hls Hev Hfs Hfuel) as HIH.
      simpl in HIH. by rewrite <- HIH.
Qed.

Lemma lines_length ls rest :
  (length ls ≤ String.length (lines ls +:+ rest))%nat.
Proof.
  induction ls as [|l ls IH]; [simpl; lia|].
  rewrite lines_cons. pose proof (cut_line_length l (lines ls +:+ rest)). simpl. lia.
Qed.

Lemma events_of_length ls events :
  events_of ls = Some events → (length events ≤ length ls)%nat.
Proof.
  revert events. induction ls as [|l ls IH]; intros events.
  - by intros [= <-].
  - rewrite events_of_cons. destruct (payload_of _).
    + destruct (json_Unmarshal_Event _); [|done].
      destruct (events_of ls) as [es|]; [|done]. intros [= <-].
      specialize (IH _ eq_refl). simpl. lia.
    + intros ?%IH. simpl. lia.
Qed.

(** X13. On an input of terminated lines whose data lines all decode,
    followed by at most an unterminated rest, the loop over [Next] delivers
    one event per data line and ends with the message and the JSON buffers
    that folding those events into a fresh stream gives, the last event as
    the current one, and an error exactly when the read failed. *)
Theorem drain_folds_events ls tail final events r s_end :
  Forall unterminated ls → unterminated tail →
  events_of ls = Some events →
  updateMessages (NewMessageStream r) events = Done s_end →
  drain (NewMessageStream (Reader.mk (lines ls +:+ tail) final)) =
  Done (length events,
        MessageStream.mk (Reader.mk "" final) (last events)
          match final with EOF => None | ReadFailure c => Some (ErrorReadingStream c) end
          (MessageStream.message s_end) (MessageStream.jsonBuffers s_end)).
Proof.
  intros Hls Htail Hev Hrun. unfold drain, NewMessageStream in *. simpl Reader.pending.
  pose proof (updateMessages_fields events (MessageStream.mk r None None Message.zero ∅)
                (Reader.mk (lines ls +:+ tail) final) None None) as Hf.
  rewrite Hrun in Hf. unfold with_acc in Hf. simpl in Hf.
  pose proof (events_of_length _ _ Hev) as Hlen.
  pose proof (lines_length ls tail) as Hlen'.
  rewrite (drain_loop_prefix tail final ls None _ _ 0%nat _ events _ Hls Hev Hf) by lia.
  simpl MessageStream.message. simpl MessageStream.jsonBuffers.
  destruct (S (String.length (lines ls +:+ tail)) - length events)%nat as [|k] eqn:Ek; [lia|].
  simpl. rewrite (Next_tail _ _ _ _ _ Htail). simpl.
  unfold current_after. by destruct (last events).
Qed.

(** X14. When the first data line that does not decode comes after lines
    whose data lines all decode, the loop over [Next] delivers the events
    before it and stops there with the decode error: the message is the one
    the events before it give, and what follows the line is not read. *)
Theorem drain_stops_at_decode_error ls bad data rest final events r s_end :
  Forall unterminated ls → unterminated bad →
  events_of ls = Some events →
  payload_of (bad +:+ newline) = Some data → json_Unmarshal_Event data = None →
  updateMessages (NewMessageStream r) events = Done s_end →
  drain (NewMessageStream (Reader.mk (lines ls +:+ bad +:+ newline +:+ rest) final)) =
  Done (length events,
        MessageStream.mk (Reader.mk rest final) (last events) (Some ErrorParsingEvent)
          (MessageStream.message s_end) (MessageStream.jsonBuffers s_end)).
Proof.
  intros Hls Hbad Hev Hdata Hdec Hrun. unfold drain, NewMessageStream in *.
  simpl Reader.pending.
  change (bad +:+ newline +:+ rest) with (bad +:+ String "010" rest).
  set (after := bad +:+ String "010" rest).
  pose proof (updateMessages_fields events (MessageStream.mk r None None Message.zero ∅)
                (Reader.mk (lines ls +:+ after) final) None None) as Hf.
  rewrite Hrun in Hf. unfold with_acc in Hf. simpl in Hf.
  pose proof (events_of_length _ _ Hev) as Hlen.
  pose proof (lines_length ls after) as Hlen'.
  rewrite (drain_loop_prefix after final ls None _ _ 0%nat _ events _ Hls Hev Hf) by lia.
  simpl MessageStream.message. simpl MessageStream.jsonBuffers.
  destruct (S (String.length (lines ls +:+ after)) - length events)%nat as [|k] eqn:Ek; [lia|].
  simpl. subst after.
  rewrite (Next_line _ _ _ _ _ _ Hbad). simpl. rewrite Hdata, Hdec. simpl.
  unfold current_after. by destruct (last events).
Qed.

End Reading.

(** * Decoded content blocks *)

Section Blocks.
Import Json.


(** X16. A document whose type is none of the six known ones (an empty or
    missing type included) decodes without an error and leaves the block
    as it was: on a fresh block, empty. *)
Theorem UnmarshalJSON_unknown_type data c t :
  type_tag data = Some t → t ∉ known_types →
  UnmarshalJSON data c = Some c.
Proof.
  unfold type_tag, UnmarshalJSON, known_types. intros -> Hnot.
  repeat (rewrite decide_False; [|intros ->; apply Hnot; set_solver]). done.
Qed.

Lemma store_members_cons {T : Type} (fields : list (string * store T)) k v ms cur :
  store_members fields ((k, v) :: ms) cur =
  match List.find (fun f => String.eqb (fold_name (fst f)) (fold_name k)) fields with
  | Some (_, st) =>
      match st v cur with
      | Some cur' => store_members fields ms cur'
      | None => None
      end
  | None => store_members fields ms cur
  end.
Proof. done. Qed.

Lemma find_cons {A : Type} (f : A → bool) x l :
  List.find f (x :: l) = if f x then Some x else List.find f l.
Proof. done. Qed.

(** The type field of a struct follows the type tag through the members. *)
Lemma type_field_follows {T : Type} (get : T → string) (set : T → string → T)
    (others : list (string * store T)) (ms : list (string * json)) :
  (∀ x v, get (set x v) = v) →
  Forall (fun f => fold_name (fst f) ≠ "TYPE" ∧
                    ∀ j x x', snd f j x = Some x' → get x' = get x) others →
  ∀ cur t0 t x,
    get cur = t0 →
    store_members [("type", field id (fun _ v => v) store_string)] ms t0 = Some t →
    store_members (("type", field get set store_string) :: others) ms cur = Some x →
    get x = t.
Proof.
  intros Hgs Hothers. induction ms as [|[k v] ms IH]; intros cur t0 t x Hcur.
  - simpl. by intros [= <-] [= <-].
  - rewrite !store_members_cons, !find_cons.
    change (fst ("type", ?a)) with "type".
    destruct (String.eqb (fold_name "type") (fold_name k)) eqn:Ek.
    + unfold field at 1 3. unfold id.
      destruct (store_string v t0) as [u|] eqn:Eu; [|done].
      rewrite Hcur, Eu. intros Ht Hx. eapply IH; [|done..]. apply Hgs.
    + change (List.find _ []) with (@None (string * store string)).
      destruct (List.find _ others) as [[name st]|] eqn:Ef.
      * apply find_some in Ef as [Hin _].
        apply list_elem_of_In in Hin. rewrite Forall_forall in Hothers.
        apply Hothers in Hin as [_ Hpres]. simpl in Hpres.
        destruct (st v cur) as [cur'|] eqn:Est; [|done].
        intros Ht Hx. eapply IH; [|done..]. rewrite <- Hcur. by eapply Hpres.
      * intros Ht Hx. by eapply IH.
Qed.

Ltac preserved :=
  repeat first [apply Forall_nil_2 | apply Forall_cons_2];
  (split; [by vm_compute|]);
  intros ? ? ?; unfold field; cbn [snd];
  match goal with |- match ?e with _ => _ end = _ → _ => destruct e end;
  try done; by intros [= <-].

Ltac tag get :=
  unfold type_tag, store_struct;
  let data := fresh "data" in
  intros data; destruct data; try done;
  [by intros ? ? [= <-] [= <-]|];
  let Ht := fresh "Ht" in let Hx := fresh "Hx" in
  intros ? ? Ht Hx;
  refine (type_field_follows get _ _ _ _ _ _ _ _ _ _ Ht Hx); [done|preserved|done].

Lemma TextBlock_tag data t x :
  type_tag data = Some t → store_TextBlock data TextBlock.zero = Some x →
  TextBlock.Type_ x = t.
Proof. revert data t x. unfold store_TextBlock. tag TextBlock.Type_. Qed.

Lemma ImageBlock_tag data t x :
  type_tag data = Some t → store_ImageBlock data ImageBlock.zero = Some x →
  ImageBlock.Type_ x = t.
Proof. revert data t x. unfold store_ImageBlock. tag ImageBlock.Type_. Qed.

Lemma ToolUseBlock_tag data t x :
  type_tag data = Some t → store_ToolUseBlock data ToolUseBlock.zero = Some x →
  ToolUseBlock.Type_ x = t.
Proof. revert data t x. unfold store_ToolUseBlock. tag ToolUseBlock.Type_. Qed.

Lemma ToolResultBlock_tag data t x :
  type_tag data = Some t → store_ToolResultBlock data ToolResultBlock.zero = Some x →
  ToolResultBlock.Type_ x = t.
Proof. revert data t x. unfold store_ToolResultBlock. tag ToolResultBlock.Type_. Qed.

Lemma ThinkingBlock_tag data t x :
  type_tag data = Some t → store_ThinkingBlock data ThinkingBlock.zero = Some x →
  ThinkingBlock.Type_ x = t.
Proof. revert data t x. unfold store_ThinkingBlock. tag ThinkingBlock.Type_. Qed.

Lemma RedactedThinkingBlock_tag data t x :
  type_tag data = Some t →
  store_RedactedThinkingBlock data RedactedThinkingBlock.zero = Some x →
  RedactedThinkingBlock.Type_ x = t.
Proof.
  revert data t x. unfold store_RedactedThinkingBlock. tag RedactedThinkingBlock.Type_.
Qed.

(** X15. A block decoded into a fresh [ContentBlock] has at most one
    variant populated, and that variant carries the type of its kind. *)
Theorem UnmarshalJSON_tagged_union data c :
  UnmarshalJSON data ContentBlock.zero = Some c →
  (populated c ≤ 1)%nat ∧ well_tagged c.
Proof.
  intros Hc. split.
  { revert Hc. unfold UnmarshalJSON. case_match; [|done].
    repeat case_decide; repeat case_match; intros [= <-]; unfold populated; simpl; lia. }
  revert Hc. unfold UnmarshalJSON.
  destruct (store_struct _ data "") as [t|] eqn:Ht; [|done].
  change (type_tag data = Some t) in Ht.
  repeat case_decide; repeat case_match; intros [= <-];
    repeat split; intros b [= <-]; subst.
  - by eapply TextBlock_tag.
  - by eapply ImageBlock_tag.
  - by eapply ToolUseBlock_tag.
  - by eapply ToolResultBlock_tag.
  - by eapply ThinkingBlock_tag.
  - by eapply RedactedThinkingBlock_tag.
Qed.

End Blocks.

(** * API errors *)

Section ErrorsProperties.
Import Json.

(** What every field of a struct maintains, storing an object into it
    maintains. *)
Lemma store_members_invariant {T : Type} (P : T → Prop)
    (fields : list (string * store T)) (ms : list (string * json)) :
  Forall (fun f => ∀ j x x', snd f j x = Some x' → P x → P x') fields →
  ∀ cur x, store_members fields ms cur = Some x → P cur → P x.
Proof.
  intros Hfields. induction ms as [|[k v] ms IH]; intros cur x.
  - simpl. by intros [= <-].
  - rewrite store_members_cons.
    destruct (List.find _ fields) as [[name st]|] eqn:Ef; [|apply IH].
    apply find_some in Ef as [Hin _]. apply list_elem_of_In in Hin.
    rewrite Forall_forall in Hfields. pose proof (Hfields _ Hin) as Hst. simpl in Hst.
    destruct (st v cur) as [cur'|] eqn:Est; [|done].
    intros Hx Hcur. eapply IH; [done|]. by eapply Hst.
Qed.

Ltac kept :=
  repeat first [apply Forall_nil_2 | apply Forall_cons_2];
  intros ? ? ?; unfold field; cbn [snd];
  match goal with |- match ?e with _ => _ end = _ → _ => destruct e end;
  try done; by intros [= <-].

(** Decoding does not touch the fields tagged [json:"-"]. *)
Lemma store_APIError_keeps j cur x :
  store_APIError j cur = Some x →
  APIError.StatusCode x = APIError.StatusCode cur ∧
  APIError.RawResponse x = APIError.RawResponse cur ∧
  APIError.RateLimitInfo x = APIError.RateLimitInfo cur.
Proof.
  unfold store_APIError, store_struct. destruct j; try done; [by intros [= <-]|].
  intros Hx.
  apply (store_members_invariant
           (fun e => APIError.StatusCode e = APIError.StatusCode cur ∧
                     APIError.RawResponse e = APIError.RawResponse cur ∧
                     APIError.RateLimitInfo e = APIError.RateLimitInfo cur)) in Hx;
    [done| |done].
  kept.
Qed.

(** The error object of a decoded envelope carries no rate-limit
    information. *)
Lemma store_Envelope_no_info j r :
  store_Envelope j Envelope.zero = Some r →
  Envelope.Error r ≫= APIError.RateLimitInfo = None.
Proof.
  unfold store_Envelope, store_struct. destruct j; try done; [by intros [= <-]|].
  intros Hx.
  apply (store_members_invariant
           (fun r => Envelope.Error r ≫= APIError.RateLimitInfo = None)) in Hx;
    [done| |done].
  repeat first [apply Forall_nil_2 | apply Forall_cons_2];
    intros j x x'; unfold field; cbn [snd].
  - destruct (store_string _ _); [|done]. by intros [= <-].
  - unfold pointer.
    destruct j; try (by intros [= <-]);
      destruct (store_APIError _ _) as [e|] eqn:E; try done;
      intros [= <-] Hcur; simpl;
      apply store_APIError_keeps in E as (_ & _ & ->);
      by destruct (Envelope.Error x).
Qed.

Lemma enveloped_no_info data e :
  enveloped data = Some e → APIError.RateLimitInfo e = None.
Proof.
  unfold enveloped, json_Unmarshal. destruct (parse data) as [j|]; [|done].
  destruct (store_Envelope j Envelope.zero) as [r|] eqn:Hr; [|done].
  apply store_Envelope_no_info in Hr. intros He. by rewrite He in Hr.
Qed.

Variable error_text : string → string.

(** The two ways [ParseAPIError] returns: the error object of the envelope,
    or the body decoded as the error itself. *)
Lemma ParseAPIError_cases statusCode data :
  let result := ParseAPIError error_text statusCode data in
  (∃ e, enveloped data = Some e ∧ APIError.RateLimitInfo e = None ∧
        result = set_RawResponse (set_StatusCode e statusCode) data) ∨
  (enveloped data = None ∧
   (APIError.RateLimitInfo result = None ∨
    APIError.RateLimitInfo result = Some RateLimitInfo.zero ∧
    IsRateLimitError result = true)).
Proof.
  simpl. destruct (enveloped data) as [e|] eqn:He.
  - left. exists e. split; [done|]. split; [by eapply enveloped_no_info|].
    unfold ParseAPIError. unfold enveloped in He.
    destruct (json_Unmarshal store_Envelope data Envelope.zero) as [[t o]|]; [|done].
    simpl in He. by subst o.
  - right. split; [done|]. unfold ParseAPIError. unfold enveloped in He.
    assert (∀ x, json_Unmarshal store_APIError data
                   (set_RawResponse (set_StatusCode APIError.zero statusCode) data) =
                 Some x → APIError.RateLimitInfo x = None) as Hnone.
    { intros x Hx. unfold json_Unmarshal in Hx. destruct (parse data); [|done].
      by apply store_APIError_keeps in Hx as (_ & _ & ->). }
    destruct (json_Unmarshal store_Envelope data Envelope.zero) as [[t [e|]]|]; [done|..].
    all: destruct (json_Unmarshal store_APIError _ _) as [x|]; [|by left].
    all: specialize (Hnone x eq_refl).
    all: destruct (IsRateLimitError x) eqn:Hrl; [by right|by left].
Qed.

(** X17. The status code and the body given to [ParseAPIError] are those of
    the error it returns, whatever the body is: an enveloped error, a bare
    one, or no JSON at all. *)
Theorem ParseAPIError_keeps_status_and_body statusCode data :
  APIError.StatusCode (ParseAPIError error_text statusCode data) = statusCode ∧
  APIError.RawResponse (ParseAPIError error_text statusCode data) = data.
Proof.
  unfold ParseAPIError.
  destruct (json_Unmarshal store_Envelope data Envelope.zero) as [[t [e|]]|]; [done|..].
  all: destruct (json_Unmarshal store_APIError _ _) as [x|] eqn:Hx; [|done].
  all: unfold json_Unmarshal in Hx; destruct (parse data); [|done].
  all: apply store_APIError_keeps in Hx as (Hs & Hr & _).
  all: by destruct (IsRateLimitError x).
Qed.

(** X18. An error that arrives in the envelope is returned as decoded, with
    the status code and the body, and without rate-limit information, also
    when it is a rate-limit error. *)
Theorem ParseAPIError_enveloped statusCode data e :
  enveloped data = Some e →
  ParseAPIError error_text statusCode data =
    set_RawResponse (set_StatusCode e statusCode) data ∧
  APIError.RateLimitInfo (ParseAPIError error_text statusCode data) = None.
Proof.
  intros He.
  destruct (ParseAPIError_cases statusCode data) as [(e' & He' & Hinfo & ->)|[Hno _]];
    [|congruence].
  by simplify_eq.
Qed.

(** X19. The rate-limit information of an error from [ParseAPIError], when
    there is one, is the empty one, with no retry delay and no limit type;
    the error is then a rate-limit error that came without the envelope. *)
Theorem ParseAPIError_rate_limit_info_empty statusCode data info :
  APIError.RateLimitInfo (ParseAPIError error_text statusCode data) = Some info →
  info = RateLimitInfo.zero ∧
  enveloped data = None ∧
  IsRateLimitError (ParseAPIError error_text statusCode data) = true.
Proof.
  destruct (ParseAPIError_cases statusCode data)
    as [(e & _ & Hinfo & ->)|[Hno [->|[-> Hrl]]]]; simpl.
  - by rewrite Hinfo.
  - done.
  - by intros [= <-].
Qed.

(** X20. The error [request] and [CreateMessageStream] return for a
    response carries rate-limit information exactly when it is a
    rate-limit error, enveloped or not; its type, status code and body are
    those of [ParseAPIError]. *)
Theorem response_error_rate_limit_info statusCode Get respData :
  let result := response_error error_text statusCode Get respData in
  (is_Some (APIError.RateLimitInfo result) ↔ IsRateLimitError result = true) ∧
  APIError.Type_ result = APIError.Type_ (ParseAPIError error_text statusCode respData) ∧
  APIError.StatusCode result = statusCode ∧
  APIError.RawResponse result = respData.
Proof.
  simpl. unfold response_error.
  pose proof (ParseAPIError_cases statusCode respData) as Hcases. simpl in Hcases.
  assert (Hkeep : APIError.StatusCode (ParseAPIError error_text statusCode respData) =
                    statusCode ∧
                  APIError.RawResponse (ParseAPIError error_text statusCode respData) =
                    respData).
  { unfold ParseAPIError.
    destruct (json_Unmarshal store_Envelope respData Envelope.zero) as [[t [e|]]|];
      [done|..].
    all: destruct (json_Unmarshal store_APIError _ _) as [x|] eqn:Hx; [|done].
    all: unfold json_Unmarshal in Hx; destruct (parse respData); [|done].
    all: apply store_APIError_keeps in Hx as (Hs & Hr & _).
    all: by destruct (IsRateLimitError x). }
  destruct Hkeep as [Hs Hr].
  set (parsed_error := ParseAPIError error_text statusCode respData) in *.
  assert (Hinfo : is_Some (APIError.RateLimitInfo parsed_error) →
                  IsRateLimitError parsed_error = true).
  { intros [info Hinfo].
    destruct Hcases as [(e & _ & Hnone & Heq)|[_ [Hnone|[_ Hrl]]]]; [| |done].
    - rewrite Heq in Hinfo. simpl in Hinfo. congruence.
    - congruence. }
  clearbody parsed_error.
  set (apiErr := if decide (Get "x-request-id" ≠ "")
                 then set_RequestID parsed_error (Get "x-request-id")
                 else parsed_error).
  assert (Hsame : APIError.Type_ apiErr = APIError.Type_ parsed_error ∧
                  APIError.RateLimitInfo apiErr = APIError.RateLimitInfo parsed_error ∧
                  APIError.StatusCode apiErr = statusCode ∧
                  APIError.RawResponse apiErr = respData).
  { unfold apiErr. by case_decide. }
  destruct Hsame as (Hty & Hrli & Hs' & Hr').
  assert (Hrl : IsRateLimitError apiErr = IsRateLimitError parsed_error).
  { unfold IsRateLimitError. by rewrite Hty. }
  clearbody apiErr.
  destruct (IsRateLimitError apiErr) eqn:E.
  - split; [|done]. split; [|by eexists]. intros _.
    unfold IsRateLimitError in *. simpl. done.
  - split; [|done]. rewrite Hrli. split; [|by rewrite E]. intros Hsome.
    apply Hinfo in Hsome. congruence.
Qed.

End ErrorsProperties.

(** * Examples of the properties above *)

Import Cases.

(** X1, witness: the text Hel, then lo, a stop and an exclamation mark. *)
Lemma text_accumulates_witness :
  ∃ s' b' tb',
    updateMessages (accumulated [text_block "Hel"])
      [text_delta 0 "lo"; stop 0; text_delta 0 "!"] = Done s' ∧
    content s' !! 0%nat = Some b' ∧
    ContentBlock.TextContent b' = Some tb' ∧
    TextBlock.Text tb' = "Hello!".
Proof.
  apply (text_accumulates (accumulated [text_block "Hel"])
           [text_delta 0 "lo"; stop 0; text_delta 0 "!"]
           0 (text_block "Hel") (TextBlock.mk TextContentType "Hel")).
  - reflexivity.
  - reflexivity.
  - intros e idx He Hidx.
    repeat (apply elem_of_cons in He as [->|He]; [injection Hidx as <-; lia|]).
    by apply elem_of_nil in He.
  - intros e He [Hty _].
    repeat (apply elem_of_cons in He as [->|He]; [discriminate Hty|]).
    by apply elem_of_nil in He.
Defined.

(** X2, witness. *)
Lemma thinking_accumulates_witness :
  ∃ s' b' th',
    updateMessages (accumulated [thinking_block "First" ""])
      [thinking_delta 0 ", second"; signature_delta 0 "sig"; thinking_delta 0 "."] =
      Done s' ∧
    content s' !! 0%nat = Some b' ∧
    ContentBlock.ThinkingContent b' = Some th' ∧
    ThinkingBlock.Thinking th' = "First, second.".
Proof.
  apply (thinking_accumulates (accumulated [thinking_block "First" ""])
           [thinking_delta 0 ", second"; signature_delta 0 "sig"; thinking_delta 0 "."]
           0 (thinking_block "First" "") (ThinkingBlock.mk ThinkingContentType "First" "")).
  - reflexivity.
  - reflexivity.
  - intros e idx He Hidx.
    repeat (apply elem_of_cons in He as [->|He]; [injection Hidx as <-; lia|]).
    by apply elem_of_nil in He.
  - intros e He [Hty _].
    repeat (apply elem_of_cons in He as [->|He]; [discriminate Hty|]).
    by apply elem_of_nil in He.
Defined.

(** X3, witness: the buffer after a stop in the middle of the fragments. *)
Lemma buffer_accumulates_witness :
  ∃ s' b' tu',
    updateMessages (accumulated [tool_block (JObject [])])
      [json_delta 0 "{}"; stop 0; json_delta 0 "{}"] = Done s' ∧
    content s' !! 0%nat = Some b' ∧
    ContentBlock.ToolUseContent b' = Some tu' ∧
    buffer s' 0 = "{}{}".
Proof.
  apply (buffer_accumulates (accumulated [tool_block (JObject [])])
           [json_delta 0 "{}"; stop 0; json_delta 0 "{}"]
           0 (tool_block (JObject []))
           (ToolUseBlock.mk ToolUseContentType "toolu_1" "calculator" (JObject []))).
  - reflexivity.
  - reflexivity.
  - intros e idx He Hidx.
    repeat (apply elem_of_cons in He as [->|He]; [injection Hidx as <-; lia|]).
    by apply elem_of_nil in He.
  - intros e He [Hty _].
    repeat (apply elem_of_cons in He as [->|He]; [discriminate Hty|]).
    by apply elem_of_nil in He.
Defined.

(** X5, witness: a stop that parses the buffer, applied again. *)
Lemma stop_is_idempotent_witness :
  updateMessage (buffered [tool_block (JObject [("a", JNumber "1")])] (quoted "{'a':1}"))
    (stop 0) =
  Done (buffered [tool_block (JObject [("a", JNumber "1")])] (quoted "{'a':1}")).
Proof.
  apply (stop_is_idempotent (buffered [tool_block (JObject [])] (quoted "{'a':1}"))
           (stop 0)).
  - reflexivity.
  - vm_compute. reflexivity.
Defined.

(** X6, witness: an input delta for a text block. *)
Lemma mismatched_delta_witness :
  updateMessage (accumulated [text_block "a"]) (json_delta 0 "{}") =
  Done (accumulated [text_block "a"]).
Proof.
  apply (mismatched_delta_is_ignored (accumulated [text_block "a"]) (json_delta 0 "{}")
           (Delta.mk "input_json_delta" "" "{}" "" "") 0 (text_block "a")).
  - reflexivity.
  - reflexivity.
  - reflexivity.
  - lia.
  - reflexivity.
  - intros [[Hty _]|[[_ [tu Htu]]|[[Hty _]|[Hty _]]]]; discriminate.
Defined.

(** X8, witness: a [message_delta] event with a stop reason and a usage. *)
Lemma header_fields_witness :
  let s := accumulated [text_block "a"] in
  (Event.Type_ (message_delta "end_turn") ≠ MessageStartEvent →
   message_identity (Message s) = message_identity (Message s)) ∧
  (Event.Type_ (message_delta "end_turn") ≠ MessageStopEvent →
   message_completion (Message s) = message_completion (Message s)) ∧
  Message.StopSequence (Message s) = Message.StopSequence (Message s).
Proof.
  apply (header_fields_by_event (accumulated [text_block "a"]) (message_delta "end_turn")
           (accumulated [text_block "a"])).
  reflexivity.
Defined.

(** X7, witness: a [message_delta] event leaves the blocks alone. *)
Lemma unindexed_event_witness :
  ∃ s', updateMessage (accumulated [text_block "a"]) (message_delta "end_turn") = Done s' ∧
        content s' = [text_block "a"] ∧
        MessageStream.jsonBuffers s' = ∅.
Proof.
  apply (unindexed_event_keeps_blocks (accumulated [text_block "a"])
           (message_delta "end_turn")).
  left. intros [Hty|[Hty|Hty]]; discriminate.
Defined.

(** X10, witness: a data line with a [message_stop] event. *)
Lemma Next_true_witness :
  let s := stream_of [quoted "data: {'type':'message_stop','stop_reason':'end_turn'}"] in
  let event := Event.mk MessageStopEvent None (Some EndTurn) None None None None in
  let s' := MessageStream.mk (Reader.mk "" EOF) (Some event) None
              (set_StopReason Message.zero EndTurn) ∅ in
  Err s = None ∧ Err s' = None ∧
  ∃ event,
    Current s' = Some event ∧
    updateMessage (set_currentEvent (set_reader s (MessageStream.reader s')) (Some event))
      event = Done s'.
Proof.
  apply (Next_true
           (stream_of [quoted "data: {'type':'message_stop','stop_reason':'end_turn'}"])).
  vm_compute. reflexivity.
Defined.

(** X11, witness: an input of an [event:] line only. *)
Lemma Next_false_witness :
  let s := stream_of ["event: ping"] in
  let s' := set_reader s (Reader.mk "" EOF) in
  Message s' = Message s ∧
  MessageStream.jsonBuffers s' = MessageStream.jsonBuffers s ∧
  Current s' = Current s ∧
  (Err s' = None →
   Err s = None ∧ Reader.final (MessageStream.reader s) = EOF ∧
   MessageStream.reader s' = Reader.mk "" EOF).
Proof.
  apply (Next_false (stream_of ["event: ping"])).
  vm_compute. reflexivity.
Defined.

(** X12, witness: an [event:] line in front of a data line. *)
Lemma Next_skips_line_witness :
  Next (stream_of ["event: message_stop"; quoted "data: {'type':'message_stop'}"]) =
  Next (stream_of [quoted "data: {'type':'message_stop'}"]).
Proof.
  apply (Next_skips_line
           (stream_of ["event: message_stop"; quoted "data: {'type':'message_stop'}"])
           "event: message_stop").
  - reflexivity.
  - vm_compute. reflexivity.
  - reflexivity.
  - right. vm_compute. reflexivity.
Defined.

(** X13, witness: the scenario, with an [event:] line and a blank line
    among its data lines and an unterminated rest. *)
Lemma drain_folds_events_witness :
  ∃ s, drain (NewMessageStream
                (Reader.mk (lines ("event: message_start" :: "" :: data_lines) +:+ "data: {")
                   EOF)) = Done (6%nat, s) ∧
       Err s = None ∧ Message s = hello.
Proof.
  eexists. split; [|split].
  - etransitivity.
    + apply (drain_folds_events ("event: message_start" :: "" :: data_lines) "data: {" EOF
               scenario_events (Reader.mk "" EOF) scenario_end).
      * apply Forall_forall. intros l Hl.
        repeat (apply elem_of_cons in Hl as [->|Hl]; [vm_compute; reflexivity|]).
        by apply elem_of_nil in Hl.
      * vm_compute. reflexivity.
      * vm_compute. reflexivity.
      * vm_compute. reflexivity.
    + lazy. reflexivity.
  - reflexivity.
  - reflexivity.
Defined.

(** X14, witness: a line that does not decode after the first three of the
    scenario, and the other three after it. *)
Lemma drain_stops_at_decode_error_witness :
  ∃ s, drain (NewMessageStream
                (Reader.mk (lines (take 3 data_lines) +:+ "data: {not json" +:+ newline +:+
                            lines (drop 3 data_lines)) EOF)) = Done (3%nat, s) ∧
       Err s = Some ErrorParsingEvent ∧
       Message s = Message.mk "m1" AssistantRole [text_block "Hel"] "" "" "" (Usage.mk 0 0) ∧
       Reader.pending (MessageStream.reader s) = lines (drop 3 data_lines).
Proof.
  eexists. split; [|split; [|split]].
  - etransitivity.
    + apply (drain_stops_at_decode_error (take 3 data_lines) "data: {not json" "{not json"
               (lines (drop 3 data_lines)) EOF (take 3 scenario_events)
               (Reader.mk "" EOF) prefix_end).
      * apply Forall_forall. intros l Hl.
        repeat (apply elem_of_cons in Hl as [->|Hl]; [vm_compute; reflexivity|]).
        by apply elem_of_nil in Hl.
      * vm_compute. reflexivity.
      * vm_compute. reflexivity.
      * vm_compute. reflexivity.
      * vm_compute. reflexivity.
      * vm_compute. reflexivity.
    + lazy. reflexivity.
  - reflexivity.
  - reflexivity.
  - reflexivity.
Defined.

(** X15, witness: a text block. *)
Lemma UnmarshalJSON_tagged_union_witness :
  (populated (text_block "hi") ≤ 1)%nat ∧ well_tagged (text_block "hi").
Proof.
  apply (UnmarshalJSON_tagged_union
           (JObject [("type", JString "text"); ("text", JString "hi")])).
  vm_compute. reflexivity.
Defined.

(** X16, witness: a block of the type [server_tool_use]. *)
Lemma UnmarshalJSON_unknown_type_witness :
  Json.UnmarshalJSON
    (JObject [("type", JString "server_tool_use"); ("id", JString "srvtoolu_1");
              ("name", JString "web_search")]) ContentBlock.zero =
  Some ContentBlock.zero.
Proof.
  apply (UnmarshalJSON_unknown_type _ ContentBlock.zero "server_tool_use").
  - reflexivity.
  - intros Hin.
    repeat (apply elem_of_cons in Hin as [Hin|Hin]; [discriminate Hin|]).
    by apply elem_of_nil in Hin.
Defined.

(** X18, witness: a rate-limit error in the envelope. *)
Lemma ParseAPIError_enveloped_witness :
  let data :=
    quoted "{'type':'error','error':{'type':'rate_limit_error','message':'slow down'}}" in
  let e := APIError.mk "rate_limit_error" "slow down" "" "" 0 "" "" None ∅ in
  ParseAPIError no_text 429 data = set_RawResponse (set_StatusCode e 429) data ∧
  APIError.RateLimitInfo (ParseAPIError no_text 429 data) = None.
Proof.
  apply (ParseAPIError_enveloped no_text 429
           (quoted "{'type':'error','error':{'type':'rate_limit_error','message':'slow down'}}")
           (APIError.mk "rate_limit_error" "slow down" "" "" 0 "" "" None ∅)).
  vm_compute. reflexivity.
Defined.

(** X19, witness: the same error without the envelope. *)
Lemma ParseAPIError_rate_limit_info_witness :
  let data := quoted "{'type':'rate_limit_error','message':'slow down'}" in
  RateLimitInfo.zero = RateLimitInfo.zero ∧
  enveloped data = None ∧
  IsRateLimitError (ParseAPIError no_text 429 data) = true.
Proof.
  apply (ParseAPIError_rate_limit_info_empty no_text 429
           (quoted "{'type':'rate_limit_error','message':'slow down'}") RateLimitInfo.zero).
  vm_compute. reflexivity.
Defined.

(** X9, witness: starts for the indices 3 and 1 on a sequence of one block,
    with a delta and a stop for indices beyond it. *)
Lemma content_length_after_witness :
  ∃ s', updateMessages (accumulated [text_block "a"])
          [start 3 (text_block ""); text_delta 7 "x"; stop 9; start 1 (text_block "")] =
        Done s' ∧ length (content s') = 4%nat.
Proof.
  eexists. split; [lazy; reflexivity|].
  apply Nat2Z.inj.
  etransitivity.
  - apply (content_length_after (accumulated [text_block "a"])
             [start 3 (text_block ""); text_delta 7 "x"; stop 9; start 1 (text_block "")]).
    lazy. reflexivity.
  - reflexivity.
Defined.
